(** * dask-awkward IO layer: collection builders, parquet planner and writer

    A shallow embedding of [dask_awkward/lib/io/io.py] and
    [dask_awkward/lib/io/parquet.py].  Python integers are [Z], sequences
    are lists, dictionaries are [gmap]s, sets are [gset]s, and a raised
    exception is the left injection of the result of a builder.  Builders
    thread the list of graph layers constructed so far, so that "raised
    before any layer exists" is a statement about that list. *)

From Stdlib Require Import ZArith Lia Ascii String.
From stdpp Require Import base option list gmap sets strings.

Set Warnings "-register-all".
Local Open Scope string_scope.
Local Open Scope list_scope.

(** ** Python values *)

Inductive PyVal : Type :=
| VNone
| VBool (b : bool)
| VInt (z : Z)
| VStr (s : string)
| VTuple (items : list PyVal)
| VList (items : list PyVal).

(** Truth value of an object, as [if x:] and [x or y] test it. *)
Definition truthy (v : PyVal) : bool :=
  match v with
  | VNone => false
  | VBool b => b
  | VInt z => negb (z =? 0)%Z
  | VStr s => negb (String.eqb s "")
  | VTuple l | VList l => negb (Nat.eqb (length l) 0)
  end.

Inductive Exn : Type :=
| ValueError (msg : string)
| TypeError (msg : string)
| IndexError (msg : string)
| NameError (msg : string)
| ZeroDivisionError (msg : string)
| AttributeError (msg : string).

(** ** Integer helpers: true division followed by [math.ceil], [range],
    slicing and running sums *)

(** [int(math.ceil(a / b))] for [b <> 0].  The quotient is a float in the
    source; it is exact for operands below 2^53, which covers every array
    length, and the model is the exact ceiling. *)
Definition ceil_div (a b : Z) : Z := (- ((- a) / b))%Z.

(** [list(range(start, stop, step))]; a zero step raises [ValueError]. *)
Definition range_len (start stop step : Z) : nat :=
  if (0 <? step)%Z then Z.to_nat (ceil_div (stop - start) step)
  else Z.to_nat (ceil_div (start - stop) (- step)).

Definition py_range (start stop step : Z) : Exn + list Z :=
  if (step =? 0)%Z then inl (ValueError "range() arg 3 must not be zero")
  else inr (map (fun i : nat => (start + Z.of_nat i * step)%Z)
                (seq 0 (range_len start stop step))).

(** [range(n)] *)
Definition py_range1 (n : Z) : list Z :=
  map Z.of_nat (seq 0 (Z.to_nat n)).

(** An index of a slice bound, clamped as Python does. *)
Definition slice_bound (len : nat) (i : Z) : nat :=
  if (i <? 0)%Z then Z.to_nat (i + Z.of_nat len)
  else Nat.min (Z.to_nat i) len.

(** [xs[start:stop]] *)
Definition py_slice {A} (xs : list A) (start stop : Z) : list A :=
  let a := slice_bound (length xs) start in
  let b := slice_bound (length xs) stop in
  take (b - a) (drop a xs).

(** [itertools.accumulate(xs, operator.add)] and [np.cumsum(xs)] *)
Fixpoint accumulate_from (acc : Z) (xs : list Z) : list Z :=
  match xs with
  | [] => []
  | x :: xs' => (acc + x)%Z :: accumulate_from (acc + x)%Z xs'
  end.

Definition accumulate (xs : list Z) : list Z := accumulate_from 0 xs.

Definition sum_Z (xs : list Z) : Z := foldr Z.add 0%Z xs.

(** ** Collections *)

(** The representative value of a collection.  [typetracer_array] and
    [from_buffers] are not part of the two modules; their results are kept
    as terms naming what they were built from. *)
Inductive Meta : Type :=
| TypetracerOfRows (rows : list PyVal)
| TypetracerOfForm (subform : string).

(** Materialisation functions: the callables handed to [from_map]. *)
Inductive IOFunc : Type :=
| NotCallable (obj : PyVal)
| UserFn (fname : string)
| FromAwkwardFn (arr : list PyVal)
| FromListsFn
| FromParquetFileWiseFn (columns : option (list string)) (schema : string)
| FromParquetFragmentWiseFn (columns : option (list string)) (schema : string)
| PackedArgCallable (func : IOFunc) (args : option (list PyVal))
    (kwargs : gmap string PyVal) (packed : bool).

Definition callable (f : IOFunc) : bool :=
  match f with NotCallable _ => false | _ => true end.

Record Delayed : Type := { key : string }.

(** [tokenize(...)] is a deterministic hash of its arguments; a token is
    the term recording them. *)
Inductive Token : Type :=
| TokenStr (s : string)
| TokenizeAwkward (source : list PyVal) (npartitions : Z)
| TokenizeFromMap (func : IOFunc) (iters : list (list PyVal))
    (meta : option Meta) (kwargs : gmap string PyVal)
| TokenizeParts (parts : list Delayed)
| TokenizeParquet (tok : string) (ignore_metadata : bool)
    (columns : option (list string)) (filters : PyVal) (scan_files : bool)
    (split_row_groups : option bool).

Inductive Label : Type :=
| LabelStr (s : string)
| FuncName (f : IOFunc).

(** The collection name [f"{label}-{token}"]. *)
Record Name : Type := { label : Label; token : Token }.

(** A graph layer: either an IO layer (one task per input) or the
    dictionary [from_delayed] builds. *)
Inductive Layer : Type :=
| AwkwardIOLayer (name : Name) (inputs : list PyVal) (io_func : IOFunc)
    (meta : option Meta)
| DelayedLayer (name : Name) (dsk : list ((Name * nat) * string))
    (dependencies : list Delayed).

Record Array : Type := {
  dask : Layer;
  name : Name;
  _meta : option Meta;
  divisions : list (option Z)
}.

(** The partitions a collection really has: the tasks of its layer. *)
Definition num_partitions (a : Array) : nat :=
  match dask a with
  | AwkwardIOLayer _ inputs _ _ => length inputs
  | DelayedLayer _ dsk _ => length dsk
  end.

(** Divisions are known when no entry is [None]. *)
Definition known_divisions (a : Array) : bool :=
  forallb (fun d : option Z => match d with Some _ => true | None => false end)
          (divisions a).

(** ** The builder monad: exceptions plus the layers constructed so far *)

Definition Build (A : Type) : Type := list Layer -> (Exn + A) * list Layer.

Definition raise {A} (e : Exn) : Build A := fun g => (inl e, g).
Definition lift {A} (r : Exn + A) : Build A := fun g => (r, g).
Definition construct_layer (l : Layer) : Build Layer :=
  fun g => (inr l, g ++ [l]).

#[export] Instance Build_ret : MRet Build := fun A x g => (inr x, g).
#[export] Instance Build_bind : MBind Build := fun A B k m g =>
  match m g with
  | (inl e, g') => (inl e, g')
  | (inr x, g') => k x g'
  end.

(** ** [io.py]: the shared primitive [from_map] *)

(** An argument passed in [*iterables]: an iterable with [__len__], one
    without (a generator, turned into a list by the loop), or an object
    that is not iterable at all. *)
Inductive PyIterable : Type :=
| Sized (items : list PyVal)
| Unsized (items : list PyVal)
| NotIterable (obj : PyVal).

(** The [for i, iterable in enumerate(iters)] loop: collects the set of
    lengths and replaces unsized iterables by their lists. *)
Fixpoint scan_iterables (iterables : list PyIterable) (lengths : gset nat)
  : Exn + (gset nat * list (list PyVal)) :=
  match iterables with
  | [] => inr (lengths, [])
  | NotIterable _ :: _ =>
      inl (ValueError "All elements of `iterables` must be Iterable")
  | Sized l :: rest | Unsized l :: rest =>
      match scan_iterables rest (lengths ∪ {[ length l ]}) with
      | inl e => inl e
      | inr (ls, its) => inr (ls, l :: its)
      end
  end.

(** The list of the zip of all iterables: positional tuples, as long as
    the shortest one. *)
Definition zip_star (iters : list (list PyVal)) : list PyVal :=
  match iters with
  | [] => []
  | it :: rest =>
      let n := foldr (fun l m => Nat.min (length l) m) (length it) rest in
      map (fun i => VTuple (map (fun l : list PyVal => default VNone (l !! i)) iters))
          (seq 0 n)
  end.

(** [x or y] on an optional string. *)
Definition str_or (x : option string) (y : string) : string :=
  match x with
  | Some s => if String.eqb s "" then y else s
  | None => y
  end.

Inductive Partitioning : Type :=
| WithDivisions (divs : list (option Z))
| WithNpartitions (n : nat).

(** Modelled from the spec: [new_array_object] is defined in
    [dask_awkward/lib/core.py], outside the two modules.  A collection
    carries either the divisions it is given or, when only a partition
    count is given, all-unknown divisions of length one more than the
    count (the same tuple [from_delayed] writes out itself).  A
    representative value that is given is kept as it is.  Without one
    the real function computes the first partition to find it, and that
    computation can raise; it is not part of the model, which covers
    the builders as called with a representative value. *)
Definition new_array_object (hlg : Layer) (nm : Name) (meta : option Meta)
    (p : Partitioning) : Array :=
  {| dask := hlg; name := nm; _meta := meta;
     divisions := match p with
                  | WithDivisions d => d
                  | WithNpartitions n => replicate (n + 1) None
                  end |}.

(** [label or funcname(func)] *)
Definition label_or_funcname (label : option string) (func : IOFunc) : Label :=
  match label with
  | Some s => if String.eqb s "" then FuncName func else LabelStr s
  | None => FuncName func
  end.

(** [token or tokenize(func, iters, meta, **kwargs)] *)
Definition token_or_tokenize (token : option Token) (func : IOFunc)
    (iters : list (list PyVal)) (meta : option Meta)
    (kwargs : gmap string PyVal) : Token :=
  match token with
  | Some (TokenStr "") | None => TokenizeFromMap func iters meta kwargs
  | Some t => t
  end.

(** [if packed or args or kwargs: func = PackedArgCallable(...)] *)
Definition wrap_io_func (func : IOFunc) (args : option (list PyVal))
    (kwargs : gmap string PyVal) (packed : bool) : IOFunc :=
  if packed || from_option (fun a => negb (Nat.eqb (length a) 0)) false args
            || negb (bool_decide (kwargs = ∅))
  then PackedArgCallable func args kwargs packed
  else func.

Definition from_map (func : IOFunc) (iterables : list PyIterable)
    (args : option (list PyVal)) (label : option string)
    (token : option Token) (divisions : option (list (option Z)))
    (meta : option Meta) (kwargs : gmap string PyVal) : Build Array :=
  if negb (callable func)
  then raise (ValueError "`func` argument must be `callable`")
  else
    '(lengths, iters) ← lift (scan_iterables iterables ∅);
    if decide (size lengths = 0)
    then raise (ValueError "`from_map` requires at least one Iterable input")
    else if decide (1 < size lengths)
    then raise (ValueError "All `iterables` must have the same length")
    else if decide (lengths = {[ 0 ]})
    then raise (ValueError "All `iterables` must have a non-zero length")
    else
      let produces_tasks := default (VBool false) (kwargs !! "produces_tasks") in
      let kwargs := delete "produces_tasks" kwargs in
      '(inputs, packed) ←
        (if truthy produces_tasks || Nat.eqb (length iters) 1
         then
           if Nat.ltb 1 (length iters)
           then raise (ValueError
                  "Multiple iterables not supported when produces_tasks=True")
           else mret (default [] (head iters), false)
         else mret (zip_star iters, true));
      let nm := {| label := label_or_funcname label func;
                   token := token_or_tokenize token func iters meta kwargs |} in
      let io_func := wrap_io_func func args kwargs packed in
      dsk ← construct_layer (AwkwardIOLayer nm inputs io_func meta);
      match divisions with
      | Some d => mret (new_array_object dsk nm meta (WithDivisions d))
      | None => mret (new_array_object dsk nm meta (WithNpartitions (length inputs)))
      end.

(** ** Entry points built on [from_map] *)

Definition from_awkward (source : list PyVal) (npartitions : Z)
    (label : option string) : Build Array :=
  let nrows := Z.of_nat (length source) in
  if (npartitions =? 0)%Z then raise (ZeroDivisionError "division by zero")
  else
    let chunksize := ceil_div nrows npartitions in
    r ← lift (py_range 0 nrows chunksize);
    let locs := r ++ [nrows] in
    let starts := py_slice locs 0 (-1) in
    let stops := drop 1 locs in
    let meta := TypetracerOfRows source in
    from_map (FromAwkwardFn source)
             [Sized (VInt <$> starts); Sized (VInt <$> stops)]
             None (Some (str_or label "from-awkward"))
             (Some (TokenizeAwkward source npartitions))
             (Some (Some <$> locs)) (Some meta) ∅.

Definition from_lists (source : list (list PyVal)) : Build Array :=
  let lists := source in
  let divs := 0%Z :: accumulate (map (fun l => Z.of_nat (length l)) lists) in
  match lists with
  | [] => raise (IndexError "list index out of range")
  | first :: _ =>
      from_map FromListsFn [Sized (VList <$> lists)] None (Some "from-lists")
               None (Some (Some <$> divs)) (Some (TypetracerOfRows first)) ∅
  end.

Inductive DelayedSource : Type :=
| OneDelayed (d : Delayed)
| ManyDelayed (ds : list Delayed).

Definition from_delayed (source : DelayedSource) (meta : option Meta)
    (divisions : option (list (option Z))) (prefix : string) : Build Array :=
  let parts := match source with
               | OneDelayed d => [d]
               | ManyDelayed ds => ds
               end in
  let nm := {| label := LabelStr prefix; token := TokenizeParts parts |} in
  let dsk := imap (fun i part => ((nm, i), key part)) parts in
  divs ← match divisions with
         | None => mret (replicate (length parts + 1) None)
         | Some d =>
             if decide (length d ≠ length parts + 1)
             then raise (ValueError
                    "divisions must be a tuple of length len(source) + 1")
             else mret d
         end;
  hlg ← construct_layer (DelayedLayer nm dsk parts);
  mret (new_array_object hlg nm meta (WithDivisions divs)).

(** ** Running the tasks of an IO layer *)

(** What a materialisation function returns on positional arguments and
    keywords.  Only the functions defined in [io.py] are interpreted;
    user functions and the parquet readers are opaque. *)
Definition call_io_func (f : IOFunc) (posargs : list PyVal)
    (kwargs : gmap string PyVal) : option (list PyVal) :=
  match f, posargs with
  | FromAwkwardFn arr, [VInt start; VInt stop] =>
      if bool_decide (kwargs = ∅) then Some (py_slice arr start stop) else None
  | FromListsFn, [VList x] =>
      if bool_decide (kwargs = ∅) then Some x else None
  | _, _ => None
  end.

(** [PackedArgCallable.__call__], or a direct call with one argument. *)
Definition run_io_func (f : IOFunc) (x : PyVal) : option (list PyVal) :=
  match f with
  | PackedArgCallable g args kwargs packed =>
      packed_arg ← (if packed
                    then match x with
                         | VTuple l | VList l => Some l
                         | _ => None
                         end
                    else Some [x]);
      call_io_func g (packed_arg ++ default [] args) kwargs
  | _ => call_io_func f [x] ∅
  end.

(** Modelled from the spec: [AwkwardIOLayer] is defined in
    [dask_awkward/layers.py], outside the two modules.  Task [i] of the
    layer computes the materialisation function on input [i]. *)
Definition compute_partition (a : Array) (i : nat) : option (list PyVal) :=
  match dask a with
  | AwkwardIOLayer _ inputs f _ => x ← inputs !! i; run_io_func f x
  | DelayedLayer _ _ _ => None
  end.

(** All partitions, in partition order. *)
Definition compute_partitions (a : Array) : option (list (list PyVal)) :=
  mapM (compute_partition a) (seq 0 (num_partitions a)).

Definition run {A} (m : Build A) : (Exn + A) * list Layer := m [].

(** ** [parquet.py]: the partition planner *)

(** One row group of a [FileMetaData]: the file path its first column
    chunk reports ([row_group(i).column(0).file_path], empty when the
    footer names no file) and its row count. *)
Record RowGroupMeta : Type := { file_path : string; num_rows : Z }.

(** A per-file row-group subset as the metadata reader reports it: [None],
    or a sequence of row-group indices, which Python holds as a list
    (unhashable) or a tuple (hashable). *)
Inductive RgSubset : Type :=
| SubNone
| SubList (rgs : list Z)
| SubTuple (rgs : list Z).

(** The tuple returned by [ak_from_parquet.metadata] (an awkward-array
    function); the filesystem handle is left out.  [metadata] is the
    sequence of row groups, so [num_row_groups] is its length and
    [row_group(i)] its [i]-th element. *)
Record ReaderResult : Type := {
  parquet_columns : list string;
  subform : string;
  actual_paths : list string;
  subrg : option (list RgSubset);
  row_counts : option (list Z);
  metadata : list RowGroupMeta
}.

(** [fp in p] on strings: [fp] occurs in [p]. *)
Fixpoint str_contains (p fp : string) : bool :=
  String.prefix fp p ||
  match p with
  | EmptyString => false
  | String _ p' => str_contains p' fp
  end.

(** [{path: 0 for path in actual_paths}].  A dictionary is iterated in
    the order in which its keys were first inserted, so it is kept as that
    key order together with the finite map from keys to counts. *)
Fixpoint dict_keys (seen paths : list string) : list string :=
  match paths with
  | [] => []
  | p :: ps =>
      if bool_decide (p ∈ seen) then dict_keys seen ps
      else p :: dict_keys (p :: seen) ps
  end.

Definition dict_zero (paths : list string) : gmap string Z :=
  list_to_map ((fun p => (p, 0%Z)) <$> paths).

(** [[p for p in rgs_paths if fp in p][0]]; [None] stands for the
    [IndexError] of indexing an empty list. *)
Definition first_containing (keys : list string) (fp : string) : option string :=
  head (List.filter (fun p => str_contains p fp) keys).

(** One turn of the tally loop: the first key containing the row group's
    file path gets one more. *)
Definition tally_step (keys : list string) (rgs_paths : gmap string Z)
    (rg : RowGroupMeta) : Exn + gmap string Z :=
  match first_containing keys (file_path rg) with
  | None => inl (IndexError "list index out of range")
  | Some rgs_path => inr (alter (fun n => (n + 1)%Z) rgs_path rgs_paths)
  end.

Fixpoint tally (keys : list string) (rgs_paths : gmap string Z)
    (md : list RowGroupMeta) : Exn + gmap string Z :=
  match md with
  | [] => inr rgs_paths
  | rg :: md' =>
      match tally_step keys rgs_paths rg with
      | inl e => inl e
      | inr d => tally keys d md'
      end
  end.

(** [set(subrg) == {None}]; building the set hashes every element. *)
Definition subrg_is_all_none (sub : list RgSubset) : Exn + bool :=
  if existsb (fun s => match s with SubList _ => true | _ => false end) sub
  then inl (TypeError "unhashable type: 'list'")
  else inr (negb (Nat.eqb (length sub) 0)
            && forallb (fun s => match s with SubNone => true | _ => false end) sub).

(** The body of [if set(subrg) == {None}:].  After the loop the variable
    [i] holds the last index, [num_row_groups - 1]; it is unbound when
    the loop never ran. *)
Definition fill_subrg (paths : list string) (md : list RowGroupMeta)
  : Exn + list RgSubset :=
  match tally (dict_keys [] paths) (dict_zero paths) md with
  | inl e => inl e
  | inr _ =>
      match md with
      | [] => inl (NameError "i")
      | _ :: _ =>
          let i := (Z.of_nat (length md) - 1)%Z in
          inr (map (fun _ => SubList (py_range1 i)) paths)
      end
  end.

(** The per-file subsets the row-group branch works with. *)
Definition planned_subrg (sub : list RgSubset) (paths : list string)
    (md : list RowGroupMeta) : Exn + list RgSubset :=
  match subrg_is_all_none sub with
  | inl e => inl e
  | inr true => fill_subrg paths md
  | inr false => inr sub
  end.

(** [for rgs, path in zip(subrg, actual_paths): pairs.extend(...)] *)
Fixpoint build_pairs (sub : list RgSubset) (paths : list string)
  : Exn + list (Z * string) :=
  match sub, paths with
  | s :: sub', p :: paths' =>
      match s with
      | SubNone => inl (TypeError "'NoneType' object is not iterable")
      | SubList rgs | SubTuple rgs =>
          match build_pairs sub' paths' with
          | inl e => inl e
          | inr ps => inr (map (fun rg => (rg, p)) rgs ++ ps)
          end
      end
  | _, _ => inr []
  end.

Definition pair_val (x : Z * string) : PyVal := VTuple [VInt x.1; VStr x.2].

(** Lines 99-100: the flag when the caller leaves it unspecified. *)
Definition resolve_split_row_groups (split_row_groups : option bool)
    (row_counts : option (list Z)) : bool :=
  match split_row_groups with
  | Some b => b
  | None =>
      match row_counts with
      | Some l => Nat.ltb 1 (length l)
      | None => false
      end
  end.

Inductive Granularity : Type := FileWise | RowGroupWise.

(** Line 109: which branch builds the collection. *)
Definition granularity (split_row_groups : option bool) (r : ReaderResult)
  : Granularity :=
  if negb (resolve_split_row_groups split_row_groups (row_counts r))
     || match subrg r with None => true | Some _ => false end
  then FileWise else RowGroupWise.

(** [from_parquet], from the reader's result on.  [tok] is the filesystem
    token of [get_fs_token_paths]. *)
Definition from_parquet (tok : string) (ignore_metadata scan_files : bool)
    (columns : option (list string)) (filters : PyVal)
    (split_row_groups : option bool) (results : ReaderResult) : Build Array :=
  let lbl := "read-parquet" in
  let tk := TokenizeParquet tok ignore_metadata columns filters scan_files
                            split_row_groups in
  let meta := TypetracerOfForm (subform results) in
  match granularity split_row_groups results, subrg results with
  | RowGroupWise, Some sub =>
      sub' ← lift (planned_subrg sub (actual_paths results) (metadata results));
      let rgs := metadata results in
      let divs := 0%Z :: accumulate (num_rows <$> rgs) in
      pairs ← lift (build_pairs sub' (actual_paths results));
      from_map (FromParquetFragmentWiseFn columns (subform results))
               [Sized (pair_val <$> pairs)]
               None (Some lbl) (Some tk) (Some (Some <$> divs)) (Some meta) ∅
  | _, _ =>
      from_map (FromParquetFileWiseFn columns (subform results))
               [Sized (VStr <$> actual_paths results)]
               None (Some lbl) (Some tk) None (Some meta) ∅
  end.

(** [_metadata_file_from_data_files] / [_metadata_file_from_metas]: every
    file's footer gets the file's relative path set on its row groups and
    the footers are appended in file order. *)
Definition set_file_path (rel : string) (md : list RowGroupMeta)
  : list RowGroupMeta :=
  map (fun rg => {| file_path := rel; num_rows := num_rows rg |}) md.

Definition aggregate_metadata (files : list (string * list RowGroupMeta))
  : list RowGroupMeta :=
  concat (map (fun f => set_file_path f.1 f.2) files).

(** ** [parquet.py]: the writer *)

Definition digit_char (d : nat) : ascii :=
  ascii_of_nat (48 + d).

(** [str(n)] for a non-negative integer. *)
Fixpoint str_digits (fuel n : nat) (acc : string) : string :=
  match fuel with
  | 0 => acc
  | S fuel' =>
      let acc' := String (digit_char (n mod 10)) acc in
      if Nat.ltb n 10 then acc' else str_digits fuel' (n / 10) acc'
  end.

Definition str_of_nat (n : nat) : string := str_digits (S n) n "".

Fixpoint zeros (n : nat) : string :=
  match n with
  | 0 => ""
  | S n' => String "0" (zeros n')
  end.

(** [s.zfill(width)] *)
Definition zfill (s : string) (width : Z) : string :=
  if (width <=? Z.of_nat (String.length s))%Z then s
  else
    let fill := Z.to_nat (width - Z.of_nat (String.length s)) in
    match s with
    | String c rest =>
        if Ascii.eqb c "+" || Ascii.eqb c "-"
        then String c (zeros fill +:+ rest)
        else zeros fill +:+ s
    | EmptyString => zeros fill
    end.

(** [math.ceil(math.log(n, 10))] for [n >= 1]: the least [w] with
    [n <= 10^w].  The source computes it on floats; the model is the
    exact value, which the float computation returns for the partition
    counts a collection has (it does so at every power of ten up to
    [10^22], and first departs from it beyond [10^15]). *)
Fixpoint ceil_log10_from (fuel : nat) (w p n : Z) : Z :=
  match fuel with
  | 0 => w
  | S fuel' =>
      if (n <=? p)%Z then w else ceil_log10_from fuel' (w + 1) (10 * p) n
  end.

Definition ceil_log10 (n : Z) : Z :=
  ceil_log10_from (S (Z.to_nat (Z.log2_up n))) 0 1 n.

Record ToParquetFn : Type := {
  tp_path : string;
  tp_return_metadata : bool;
  tp_zfill : Z
}.

(** [_ToParquetFn.__init__]; [math.log] rejects a non-positive count. *)
Definition ToParquetFn_init (path : string) (return_metadata : bool)
    (npartitions : option Z) : Exn + ToParquetFn :=
  match npartitions with
  | None => inr {| tp_path := path; tp_return_metadata := return_metadata;
                   tp_zfill := 1 |}
  | Some n =>
      if (n <=? 0)%Z then inl (ValueError "math domain error")
      else inr {| tp_path := path; tp_return_metadata := return_metadata;
                  tp_zfill := ceil_log10 n |}
  end.

(** The file name [_ToParquetFn.__call__] builds for block index [k]. *)
Definition part_number (self : ToParquetFn) (k : nat) : string :=
  zfill (str_of_nat k) (tp_zfill self).

Definition part_filename (self : ToParquetFn) (k : nat) : string :=
  "part" +:+ part_number self k +:+ ".parquet".

(** [_write_partition]: the table goes to [fs.sep.join([path, filename])]. *)
Definition write_partition (sep : string) (data : list PyVal) (path : string)
    (filename : string) (files : gmap string (list PyVal))
  : gmap string (list PyVal) :=
  <[ path +:+ sep +:+ filename := data ]> files.

Definition ToParquetFn_call (sep : string) (self : ToParquetFn)
    (data : list PyVal) (block_index : nat) (files : gmap string (list PyVal))
  : gmap string (list PyVal) :=
  write_partition sep data (tp_path self) (part_filename self block_index) files.

(** [to_parquet] with [compute=True]: one call per partition, with the
    block index of the partition. *)
Definition to_parquet (sep : string) (partitions : list (list PyVal))
    (path : string) (files : gmap string (list PyVal))
  : Exn + gmap string (list PyVal) :=
  match ToParquetFn_init path false (Some (Z.of_nat (length partitions))) with
  | inl e => inl e
  | inr fn =>
      inr (foldl (fun fs kd => ToParquetFn_call sep fn kd.2 kd.1 fs) files
                 (imap (fun k d => (k, d)) partitions))
  end.

(** ** [io.py]: the bridge to rectangular numeric collections *)

(** The structural type [array._meta.layout.form.type]: a numeric leaf
    with a [primitive], a wrapper with a [content], or a record, which
    has neither attribute. *)
Inductive AkType : Type :=
| NumpyType (primitive : string)
| ListType (content : AkType)
| RegularType (content : AkType) (size : Z)
| OptionType (content : AkType)
| RecordType (fields : list string).

(** The attributes of a collection [to_dask_array] reads. *)
Record ArrayAttrs : Type := {
  attr_name : Name;
  attr_meta : option AkType;
  ndim : nat;
  npartitions : nat;
  dask_keys : list (Name * nat)
}.

Inductive ChunkSize : Type :=
| NaN
| Size (n : Z).

Inductive DaGraph : Type :=
| MapPartitionsGraph (fn : string) (src : Name)
| LowLevelGraph (src : Name)
    (tasks : list ((nat * list Z) * (string * (Name * nat)))).

Record DaskArray : Type := {
  da_graph : DaGraph;
  chunks : list (list ChunkSize);
  dtype : string
}.

(** The [while no_primitive] loop: descend through [content] until a
    type with a [primitive] is found. *)
Fixpoint leaf_primitive (content : AkType) : Exn + string :=
  match content with
  | NumpyType p => inr p
  | ListType c | RegularType c _ | OptionType c => leaf_primitive c
  | RecordType _ => inl (AttributeError "content")
  end.

Definition to_dask_array (array : ArrayAttrs) : Exn + DaskArray :=
  match attr_meta array with
  | None => inl (ValueError "Array metadata required for determining dtype")
  | Some ty =>
      if Nat.eqb (ndim array) 1
      then
        match ty with
        | NumpyType p =>
            inr {| da_graph := MapPartitionsGraph "to_numpy" (attr_name array);
                   chunks := [replicate (npartitions array) NaN];
                   dtype := p |}
        | _ => inl (AttributeError "primitive")
        end
      else
        match ty with
        | ListType c | RegularType c _ | OptionType c =>
            match leaf_primitive c with
            | inl e => inl e
            | inr p =>
                let nan_tuples_innerdims := replicate (ndim array - 1) [NaN] in
                let zeros := replicate (ndim array - 1) 0%Z in
                let llg := imap (fun i k => ((i, zeros), ("to_numpy", k)))
                                (dask_keys array) in
                inr {| da_graph := LowLevelGraph (attr_name array) llg;
                       chunks := replicate (npartitions array) NaN
                                 :: nan_tuples_innerdims;
                       dtype := p |}
            end
        | _ => inl (AttributeError "content")
        end
  end.

(** What an argument of [from_map] yields when iterated, if anything. *)
Definition iterable_items (it : PyIterable) : option (list PyVal) :=
  match it with
  | Sized l | Unsized l => Some l
  | NotIterable _ => None
  end.

(** The inputs of the tasks of a collection's layer. *)
Definition layer_inputs (a : Array) : list PyVal :=
  match dask a with
  | AwkwardIOLayer _ inputs _ _ => inputs
  | DelayedLayer _ _ _ => []
  end.

(** A type has the numeric leaf [p] when descending through [content]
    ends in a numeric type of primitive [p]. *)
Inductive numeric_leaf : AkType -> string -> Prop :=
| leaf_numpy p : numeric_leaf (NumpyType p) p
| leaf_list c p : numeric_leaf c p -> numeric_leaf (ListType c) p
| leaf_regular c n p : numeric_leaf c p -> numeric_leaf (RegularType c n) p
| leaf_option c p : numeric_leaf c p -> numeric_leaf (OptionType c) p.

(** A two-dimensional collection of three partitions. *)
Definition matrix_attrs : ArrayAttrs :=
  {| attr_name := {| label := LabelStr "from-awkward"; token := TokenStr "t" |};
     attr_meta := Some (RegularType (NumpyType "float64") 2);
     ndim := 2;
     npartitions := 3;
     dask_keys := [] |}.

(** The number a decimal numeral denotes, read from the left. *)
Fixpoint digits_value (s : string) (acc : nat) : nat :=
  match s with
  | EmptyString => acc
  | String c rest => digits_value rest (10 * acc + (nat_of_ascii c - 48))
  end.

(** ** Sample datasets *)

(** Two data files of two row groups each, and the dataset-level metadata
    aggregated from their footers. *)
Definition two_files : list (string * list RowGroupMeta) :=
  [("a.parquet", [{| file_path := ""; num_rows := 3 |};
                  {| file_path := ""; num_rows := 4 |}]);
   ("b.parquet", [{| file_path := ""; num_rows := 5 |};
                  {| file_path := ""; num_rows := 6 |}])].

Definition two_files_result : ReaderResult :=
  {| parquet_columns := ["x"]; subform := "x: int64";
     actual_paths := ["data/a.parquet"; "data/b.parquet"];
     subrg := Some [SubNone; SubNone];
     row_counts := Some [3; 4; 5; 6]%Z;
     metadata := aggregate_metadata two_files |}.

(** One data file of two row groups, read from its own footer, whose row
    groups name no file. *)
Definition one_file_result : ReaderResult :=
  {| parquet_columns := ["x"]; subform := "x: int64";
     actual_paths := ["data/a.parquet"];
     subrg := Some [SubNone];
     row_counts := None;
     metadata := [{| file_path := ""; num_rows := 3 |};
                  {| file_path := ""; num_rows := 4 |}] |}.

(** One data file of two row groups in a directory without a
    dataset-level [_metadata] file, as the reader reports it when it
    scans the files: the metadata is the footer of the file, whose row
    groups name no file, and the row counts are those of its row
    groups. *)
Definition lone_file_result : ReaderResult :=
  {| parquet_columns := ["x"]; subform := "x: int64";
     actual_paths := ["data/a.parquet"];
     subrg := Some [SubNone];
     row_counts := Some [3; 4]%Z;
     metadata := [{| file_path := ""; num_rows := 3 |};
                  {| file_path := ""; num_rows := 4 |}] |}.

(** The default granularity as the docstring of [from_parquet] and the
    specification state it: by row group exactly when a [_metadata] file
    exists, it is not ignored, and there is more than one row group. *)
Definition documented_default (has_metadata_file ignore_metadata : bool)
    (num_row_groups : nat) : Granularity :=
  if has_metadata_file && negb ignore_metadata && Nat.ltb 1 num_row_groups
  then RowGroupWise else FileWise.

(** The assignment the specification asks for when the reader reports no
    per-file subsets: every file gets its own row groups, numbered from
    zero, in file order. *)
Definition spec_sequential_pairs (files : list (string * list RowGroupMeta))
    (paths : list string) : list (Z * string) :=
  concat (zip_with (fun f p => map (fun i => (i, p))
                                   (py_range1 (Z.of_nat (length f.2))))
                   files paths).

(** ** [io.py]: from a rectangular numeric collection *)

Definition chunk_is_nan (c : ChunkSize) : bool :=
  match c with NaN => true | Size _ => false end.

(** The extent of a chunk of known size. *)
Definition chunk_extent (c : ChunkSize) : Z :=
  match c with Size n => n | NaN => 0%Z end.

(** [from_dask_array], from the graph on.  The blockwise layer is built
    by dask and comes as [hlg], the hash of the array as [token], the
    representative value as [meta].  The layer indexes the array by the
    single index ["i"], so the array has one axis and [chunks] is the
    tuple of the chunk sizes along it; the array has one block, hence one
    partition, per chunk. *)
Definition from_dask_array (hlg : Layer) (token : string) (meta : option Meta)
    (chunks : list ChunkSize) : Array :=
  let nm := {| label := LabelStr "from-dask-array"; token := TokenStr token |} in
  if existsb chunk_is_nan chunks
  then new_array_object hlg nm meta (WithNpartitions (length chunks))
  else
    let divs := 0%Z :: accumulate (chunk_extent <$> chunks) in
    new_array_object hlg nm meta (WithDivisions (Some <$> divs)).

(** ** [parquet.py]: what a partition reads *)

(** The keyword arguments of the call of awkward's [_load]; the
    filesystem handle is left out as before. *)
Record LoadRequest : Type := {
  load_actual_paths : list PyVal;
  load_parquet_columns : option (list string);
  load_subrg : PyVal;
  load_footer_sample_size : Z;
  load_max_gap : Z;
  load_max_block : Z;
  load_generate_bitmasks : bool;
  load_highlevel : bool;
  load_subform : string
}.

(** [_file_to_partition]; [subrg or [None]] replaces a false [subrg]. *)
Definition file_to_partition (path : PyVal) (columns : option (list string))
    (schema : string) (subrg : PyVal) : LoadRequest :=
  {| load_actual_paths := [path];
     load_parquet_columns := columns;
     load_subrg := if truthy subrg then subrg else VList [VNone];
     load_footer_sample_size := 2 ^ 15;
     load_max_gap := 2 ^ 10;
     load_max_block := 2 ^ 22;
     load_generate_bitmasks := false;
     load_highlevel := true;
     load_subform := schema |}.

(** [a, b = pair] *)
Definition unpack_pair (pair : PyVal) : Exn + (PyVal * PyVal) :=
  match pair with
  | VTuple [a; b] | VList [a; b] => inr (a, b)
  | VStr (String a (String b EmptyString)) =>
      inr (VStr (String a EmptyString), VStr (String b EmptyString))
  | VTuple _ | VList _ | VStr _ => inl (ValueError "cannot unpack into two values")
  | VNone | VBool _ | VInt _ => inl (TypeError "cannot unpack non-iterable object")
  end.

(** [isinstance(x, int)]; a [bool] is an [int]. *)
Definition is_int (v : PyVal) : bool :=
  match v with VInt _ | VBool _ => true | _ => false end.

(** [_FromParquetFileWiseFn.__call__] *)
Definition FromParquetFileWiseFn_call (columns : option (list string))
    (schema : string) (source : PyVal) : LoadRequest :=
  file_to_partition source columns schema VNone.

(** [_FromParquetFragmentWiseFn.__call__] *)
Definition FromParquetFragmentWiseFn_call (columns : option (list string))
    (schema : string) (pair : PyVal) : Exn + LoadRequest :=
  match unpack_pair pair with
  | inl e => inl e
  | inr (subrg, source) =>
      let subrg := if is_int subrg then VList [VList [subrg]] else subrg in
      inr (file_to_partition source columns schema subrg)
  end.

(** The request task [i] of a parquet collection makes; [None] when the
    collection has no such task or its function is not a parquet reader. *)
Definition partition_request (a : Array) (i : nat) : option (Exn + LoadRequest) :=
  match dask a with
  | AwkwardIOLayer _ inputs (FromParquetFileWiseFn columns schema) _ =>
      x ← inputs !! i; Some (inr (FromParquetFileWiseFn_call columns schema x))
  | AwkwardIOLayer _ inputs (FromParquetFragmentWiseFn columns schema) _ =>
      x ← inputs !! i; Some (FromParquetFragmentWiseFn_call columns schema x)
  | _ => None
  end.

(** ** [io.py]: the call a task makes *)

(** [PackedArgCallable.__call__], or a direct call with one argument:
    the function called, its positional arguments and its keywords. *)
Definition task_call (f : IOFunc) (x : PyVal)
  : option (IOFunc * list PyVal * gmap string PyVal) :=
  match f with
  | PackedArgCallable g args kwargs packed =>
      packed_arg ← (if packed
                    then match x with
                         | VTuple l | VList l => Some l
                         | _ => None
                         end
                    else Some [x]);
      Some (g, packed_arg ++ default [] args, kwargs)
  | _ => Some (f, [x], ∅)
  end.

(** The materialisation function of a collection's layer. *)
Definition layer_io_func (a : Array) : option IOFunc :=
  match dask a with
  | AwkwardIOLayer _ _ f _ => Some f
  | DelayedLayer _ _ _ => None
  end.

(** The call task [i] of a collection makes. *)
Definition partition_call (a : Array) (i : nat)
  : option (IOFunc * list PyVal * gmap string PyVal) :=
  match dask a with
  | AwkwardIOLayer _ inputs f _ => x ← inputs !! i; task_call f x
  | DelayedLayer _ _ _ => None
  end.

(** ** [parquet.py]: dataset-level metadata files *)

(** Exceptions of the metadata helpers beyond the built-in ones above. *)
Inductive Raised : Type :=
| Builtin (e : Exn)
| AssertionError
| FileNotFoundError (path : string).

(** [s.rstrip("/")] *)
Fixpoint rstrip_slash (s : string) : string :=
  match s with
  | EmptyString => EmptyString
  | String c rest =>
      match rstrip_slash rest with
      | EmptyString => if Ascii.eqb c "/" then EmptyString else String c EmptyString
      | rest' => String c rest'
      end
  end.

(** [s[n:]] *)
Fixpoint string_drop (n : nat) (s : string) : string :=
  match n, s with
  | 0, _ => s
  | S n', String _ rest => string_drop n' rest
  | S _, EmptyString => EmptyString
  end.

(** [_write_metadata]: the metadata is written to [out_path/_metadata],
    twice.  The filesystem maps the path of a parquet file to its footer;
    writing through [None] fails on the attribute lookup. *)
Definition write_metadata (fs : gmap string (list RowGroupMeta))
    (out_path : string) (meta : option (list RowGroupMeta))
  : Raised + gmap string (list RowGroupMeta) :=
  match meta with
  | None => inl (Builtin (AttributeError "write_metadata_file"))
  | Some m =>
      let metadata_path := out_path +:+ "/" +:+ "_metadata" in
      let fs := <[ metadata_path := m ]> fs in
      let metadata_path := out_path +:+ "/" +:+ "_metadata" in
      inr (<[ metadata_path := m ]> fs)
  end.

(** The loop of [_metadata_file_from_data_files], with [out_path]
    already stripped. *)
Fixpoint collect_footers (fs : gmap string (list RowGroupMeta))
    (out_path : string) (path_list : list string)
    (meta : option (list RowGroupMeta)) : Raised + option (list RowGroupMeta) :=
  match path_list with
  | [] => inr meta
  | path :: rest =>
      if negb (String.prefix out_path path) then inl AssertionError
      else
        match fs !! path with
        | None => inl (FileNotFoundError path)
        | Some footer =>
            let _meta :=
              set_file_path (string_drop (String.length out_path + 1) path)
                            footer in
            collect_footers fs out_path rest
              (Some (match meta with
                     | Some m => m ++ _meta
                     | None => _meta
                     end))
        end
  end.

Definition metadata_file_from_data_files (path_list : list string)
    (fs : gmap string (list RowGroupMeta)) (out_path : string)
  : Raised + gmap string (list RowGroupMeta) :=
  let out_path := rstrip_slash out_path in
  match collect_footers fs out_path path_list None with
  | inl e => inl e
  | inr meta => write_metadata fs out_path meta
  end.

(** What [_write_partition] puts in the list it returns. *)
Record MetaDict : Type := {
  d_meta : list RowGroupMeta;
  d_schema : option string
}.

(** The value [_write_partition] returns; [written] is the footer
    [pq.write_table] hands to the metadata collector. *)
Definition write_partition_returns (return_metadata head : bool)
    (filename : string) (written : list RowGroupMeta) (schema : string)
  : list MetaDict :=
  if return_metadata
  then [{| d_meta := set_file_path filename written;
           d_schema := if head then Some schema else None |}]
  else [].

(** An argument of [_metadata_file_from_metas]: a metadata object, or a
    list as [_write_partition] returns it. *)
Inductive MetaArg : Type :=
| MetaObj (md : list RowGroupMeta)
| ListObj (items : list MetaDict).

(** [meta.append_row_groups(_meta)] over the arguments after the first. *)
Fixpoint append_all (meta : list RowGroupMeta) (rest : list MetaArg)
  : Raised + list RowGroupMeta :=
  match rest with
  | [] => inr meta
  | MetaObj m :: rest' => append_all (meta ++ m) rest'
  | ListObj _ :: _ => inl (Builtin (TypeError "append_row_groups"))
  end.

(** [_metadata_file_from_metas] *)
Definition metadata_file_from_metas (fs : gmap string (list RowGroupMeta))
    (out_path : string) (metas : list MetaArg)
  : Raised + gmap string (list RowGroupMeta) :=
  match metas with
  | [] => inl (Builtin (IndexError "tuple index out of range"))
  | MetaObj m :: rest =>
      match append_all m rest with
      | inl e => inl e
      | inr meta => write_metadata fs out_path (Some meta)
      end
  | ListObj _ :: [] => inl (Builtin (AttributeError "write_metadata_file"))
  | ListObj _ :: _ :: _ => inl (Builtin (AttributeError "append_row_groups"))
  end.

(** The closing task of [to_parquet]: it receives what the writer of
    every partition returned.  [to_parquet] builds the writer without
    [return_metadata] and without [head]. *)
Definition to_parquet_closing_task (write_metadata_flag : bool)
    (path : string) (written : list (list RowGroupMeta)) (schema : string)
    (fs : gmap string (list RowGroupMeta))
  : Raised + gmap string (list RowGroupMeta) :=
  match ToParquetFn_init path false (Some (Z.of_nat (length written))) with
  | inl e => inl (Builtin e)
  | inr fn =>
      let results :=
        imap (fun k w => write_partition_returns (tp_return_metadata fn) false
                           (part_filename fn k) w schema) written in
      if write_metadata_flag
      then metadata_file_from_metas fs path (ListObj <$> results)
      else inr fs
  end.

(** ** Decimal numerals *)

(** Every character of the string is one of [0] to [9]. *)
Fixpoint all_digits (s : string) : bool :=
  match s with
  | EmptyString => true
  | String c rest =>
      Nat.leb 48 (nat_of_ascii c) && Nat.leb (nat_of_ascii c) 57
      && all_digits rest
  end.

(** ** Further sample inputs *)

(** The handles [from_delayed] works on. *)
Definition delayed_parts (source : DelayedSource) : list Delayed :=
  match source with
  | OneDelayed d => [d]
  | ManyDelayed ds => ds
  end.

(** A one-dimensional collection of three partitions. *)
Definition vector_attrs : ArrayAttrs :=
  {| attr_name := {| label := LabelStr "from-awkward"; token := TokenStr "t" |};
     attr_meta := Some (NumpyType "int64");
     ndim := 1;
     npartitions := 3;
     dask_keys := [] |}.

(** A two-dimensional collection of two partitions, with its keys. *)
Definition keyed_matrix_attrs : ArrayAttrs :=
  let nm := {| label := LabelStr "from-awkward"; token := TokenStr "t" |} in
  {| attr_name := nm;
     attr_meta := Some (ListType (NumpyType "float64"));
     ndim := 2;
     npartitions := 2;
     dask_keys := [(nm, 0); (nm, 1)] |}.

(** One data file with a single row group. *)
Definition single_row_group_result : ReaderResult :=
  {| parquet_columns := ["x"]; subform := "x: int64";
     actual_paths := ["data/a.parquet"];
     subrg := Some [SubNone];
     row_counts := None;
     metadata := [{| file_path := ""; num_rows := 3 |}] |}.

(** * Properties *)

(** Runs a builder on concrete arguments and takes its result as the
    witness of [exists a g, builder = (inr a, g) /\ _]. *)
Ltac run_builder :=
  match goal with
  | |- exists a g, ?m = (inr a, g) /\ _ =>
      let r := eval vm_compute in m in
      match r with
      | (inr ?a, ?g) => exists a, g; split; [vm_compute; reflexivity|]
      end
  end.

(** ** Arithmetic of ceilings and ranges *)

Lemma ceil_div_bounds (a b : Z) :
  (0 < b)%Z -> ((ceil_div a b - 1) * b < a <= ceil_div a b * b)%Z.
Proof.
  intros Hb. unfold ceil_div.
  pose proof (Z.mul_div_le (- a) b Hb).
  pose proof (Z.mul_succ_div_gt (- a) b Hb).
  lia.
Qed.


Lemma ceil_div_zero (b : Z) : (b <> 0)%Z -> ceil_div 0 b = 0%Z.
Proof. intros Hb. unfold ceil_div. simpl. by rewrite Z.div_0_l. Qed.

(** ** The builder monad *)

Lemma bind_lift_inr {A B} (x : A) (k : A -> Build B) g :
  (lift (inr x) ≫= k) g = k x g.
Proof. reflexivity. Qed.

Lemma bind_lift_inl {A B} (e : Exn) (k : A -> Build B) g :
  (lift (inl e) ≫= k) g = (inl e, g).
Proof. reflexivity. Qed.

(** ** The scan of the iterables *)

Lemma scan_iterables_inl its S e :
  scan_iterables its S = inl e -> exists msg, e = ValueError msg.
Proof.
  revert S. induction its as [|it its IH]; intros S H; simpl in H; [done|].
  destruct it as [l|l|o].
  - destruct (scan_iterables its _) as [e'|[ls its']] eqn:E; [|done].
    inversion H; subst. eauto.
  - destruct (scan_iterables its _) as [e'|[ls its']] eqn:E; [|done].
    inversion H; subst. eauto.
  - inversion H. eauto.
Qed.

Lemma scan_iterables_inr its S ls iters :
  scan_iterables its S = inr (ls, iters) ->
  Forall2 (fun it l => iterable_items it = Some l) its iters /\
  ls = S ∪ list_to_set (length <$> iters).
Proof.
  revert S ls iters. induction its as [|it its IH]; intros S ls iters H; simpl in H.
  - inversion H; subst. split; [constructor|]. simpl. set_solver.
  - destruct it as [l|l|o]; [| |done].
    + destruct (scan_iterables its _) as [e'|[ls' its']] eqn:E; [done|].
      inversion H; subst. destruct (IH _ _ _ E) as [HF ->].
      split; [by constructor|]. simpl. set_solver.
    + destruct (scan_iterables its _) as [e'|[ls' its']] eqn:E; [done|].
      inversion H; subst. destruct (IH _ _ _ E) as [HF ->].
      split; [by constructor|]. simpl. set_solver.
Qed.

(** Whatever [from_map] raises is a [ValueError], and it raises it with
    the graph as it found it. *)
Lemma from_map_raises func its args label token divs meta kw g e g' :
  from_map func its args label token divs meta kw g = (inl e, g') ->
  g' = g /\ exists msg, e = ValueError msg.
Proof.
  unfold from_map. destruct (callable func); simpl.
  2:{ intros H; inversion H; eauto. }
  unfold mbind, Build_bind, lift.
  destruct (scan_iterables its ∅) as [e'|[ls iters]] eqn:E.
  { intros H; inversion H; subst. split; [done|]. by eapply scan_iterables_inl. }
  destruct (decide (size ls = 0)); [intros H; inversion H; eauto|].
  destruct (decide (1 < size ls)); [intros H; inversion H; eauto|].
  destruct (decide (ls = {[0]})); [intros H; inversion H; eauto|].
  destruct (truthy _ || _); [destruct (Nat.ltb 1 _)|]; simpl;
    unfold raise, construct_layer, mret, Build_ret;
    destruct divs; intros H; inversion H; subst; eauto.
Qed.

(** When [from_map] returns, every check has passed, exactly one layer has
    been added, and the collection is the one built from the inputs. *)
Lemma from_map_returns func its args label token divs meta kw g a g' :
  from_map func its args label token divs meta kw g = (inr a, g') ->
  callable func = true /\
  exists iters n,
    Forall2 (fun it l => iterable_items it = Some l) its iters /\
    iters <> [] /\ n <> 0 /\ Forall (fun l => length l = n) iters /\
    (truthy (default (VBool false) (kw !! "produces_tasks")) = true ->
     length iters = 1) /\
    let kw' := delete "produces_tasks" kw in
    let packed := negb (truthy (default (VBool false) (kw !! "produces_tasks"))
                        || Nat.eqb (length iters) 1) in
    let inputs := if packed then zip_star iters else default [] (head iters) in
    let nm := {| label := label_or_funcname label func;
                 token := token_or_tokenize token func iters meta kw' |} in
    let layer := AwkwardIOLayer nm inputs (wrap_io_func func args kw' packed) meta in
    g' = g ++ [layer] /\
    a = new_array_object layer nm meta
          (match divs with
           | Some d => WithDivisions d
           | None => WithNpartitions (length inputs)
           end).
Proof.
  unfold from_map. destruct (callable func); simpl; [|done].
  unfold mbind, Build_bind, lift.
  destruct (scan_iterables its ∅) as [e'|[ls iters]] eqn:E; [done|].
  destruct (decide (size ls = 0)) as [|Hs0]; [done|].
  destruct (decide (1 < size ls)) as [|Hs1]; [done|].
  destruct (decide (ls = {[0]})) as [|Hz]; [done|].
  apply scan_iterables_inr in E as [HF Hls].
  rewrite (left_id_L ∅ (∪)) in Hls.
  assert (Hsz : size ls = 1) by lia.
  apply size_1_elem_of in Hsz as [n Hn]. apply leibniz_equiv in Hn.
  assert (Hall : Forall (fun l : list PyVal => length l = n) iters).
  { apply Forall_forall. intros l Hl.
    assert (length l ∈ ls) as Hin.
    { rewrite Hls. apply elem_of_list_to_set, list_elem_of_fmap. eauto. }
    rewrite Hn in Hin. by apply elem_of_singleton in Hin. }
  assert (Hne : iters <> []).
  { intros ->. simpl in Hls. rewrite Hls in Hn.
    assert (n ∈ (∅ : gset nat)) by (rewrite Hn; set_solver). set_solver. }
  assert (Hn0 : n <> 0) by (intros ->; done).
  intros H. split; [done|]. exists iters, n.
  destruct (truthy (default (VBool false) (kw !! "produces_tasks"))) eqn:Ept;
    simpl in H |- *.
  - destruct (Nat.ltb 1 (length iters)) eqn:Elt; [done|].
    apply Nat.ltb_ge in Elt.
    assert (length iters = 1) as Hlen by (destruct iters; simpl in *; [done|lia]).
    unfold mret, Build_ret, construct_layer in H.
    repeat split; try done; destruct divs; by inversion H.
  - destruct (Nat.eqb (length iters) 1) eqn:Eeq; simpl in H |- *.
    + apply Nat.eqb_eq in Eeq. rewrite Eeq in H. simpl in H.
      unfold mret, Build_ret, construct_layer in H.
      repeat split; try done; destruct divs; by inversion H.
    + unfold mret, Build_ret, construct_layer in H.
      repeat split; try done; destruct divs; by inversion H.
Qed.

(** ** C8 and C9: configuration errors of [from_map] *)

(** C8.  A call of [from_map] with a function that is not callable, with
    no iterable at all, with two iterables of different lengths, or with
    iterables that all have length zero raises [ValueError], and the list
    of constructed graph layers is the one the call started with. *)
Theorem from_map_rejects_bad_inputs func its args label token divs meta kw g :
  callable func = false \/
  its = [] \/
  (exists a b la lb, a ∈ its /\ b ∈ its /\
     iterable_items a = Some la /\ iterable_items b = Some lb /\
     length la <> length lb) \/
  (its <> [] /\
   Forall (fun it => exists l, iterable_items it = Some l /\ length l = 0) its) ->
  exists msg,
    from_map func its args label token divs meta kw g = (inl (ValueError msg), g).
Proof.
  intros Hbad.
  destruct (from_map func its args label token divs meta kw g) as [[e|a] g'] eqn:E.
  { apply from_map_raises in E as [-> [msg ->]]. eauto. }
  exfalso. apply from_map_returns in E as (Hc & iters & n & HF & Hne & Hn0 & Hall & _).
  destruct Hbad as [Hnc|[->|[(a' & b' & la & lb & Ha & Hb & Hia & Hib & Hneq)|[Hits Hz]]]].
  - congruence.
  - by inversion HF; subst.
  - apply list_elem_of_lookup in Ha as [i Hi], Hb as [j Hj].
    destruct (Forall2_lookup_l _ _ _ _ _ HF Hi) as (la' & Hla & Iqa).
    destruct (Forall2_lookup_l _ _ _ _ _ HF Hj) as (lb' & Hlb & Iqb).
    rewrite Hia in Iqa. rewrite Hib in Iqb. inversion Iqa; inversion Iqb; subst.
    rewrite Forall_forall in Hall.
    assert (length la' = n) by (apply Hall; by eapply list_elem_of_lookup_2).
    assert (length lb' = n) by (apply Hall; by eapply list_elem_of_lookup_2).
    lia.
  - destruct HF as [|it l its' iters' Hit HF']; [done|].
    inversion Hz as [|? ? (l0 & Hl0 & Hlen) _]; subst.
    inversion Hall; subst. rewrite Hit in Hl0. inversion Hl0; subst. lia.
Qed.

Lemma from_map_rejects_bad_inputs_witness :
  exists msg,
    from_map (UserFn "f") [Sized [VInt 1]; Sized [VInt 1; VInt 2]]
             None None None None None ∅ [] = (inl (ValueError msg), []).
Proof.
  apply from_map_rejects_bad_inputs. right; right; left.
  exists (Sized [VInt 1]), (Sized [VInt 1; VInt 2]), [VInt 1], [VInt 1; VInt 2].
  repeat split; [set_solver|set_solver|simpl; lia].
Defined.

(** C9.  A call of [from_map] with a true [produces_tasks] keyword and
    more than one iterable raises [ValueError], and the list of
    constructed graph layers is the one the call started with. *)
Theorem from_map_rejects_tasks_with_many_iterables
    func its args label token divs meta kw v g :
  kw !! "produces_tasks" = Some v -> truthy v = true -> 1 < length its ->
  exists msg,
    from_map func its args label token divs meta kw g = (inl (ValueError msg), g).
Proof.
  intros Hkw Hv Hlen.
  destruct (from_map func its args label token divs meta kw g) as [[e|a] g'] eqn:E.
  { apply from_map_raises in E as [-> [msg ->]]. eauto. }
  exfalso. apply from_map_returns in E as (_ & iters & n & HF & _ & _ & _ & Hone & _).
  rewrite Hkw in Hone. simpl in Hone. specialize (Hone Hv).
  apply Forall2_length in HF. lia.
Qed.

Lemma from_map_rejects_tasks_with_many_iterables_witness :
  exists msg,
    from_map (UserFn "f") [Sized [VInt 1]; Sized [VInt 2]] None None None None None
             {[ "produces_tasks" := VBool true ]} [] = (inl (ValueError msg), []).
Proof.
  apply (from_map_rejects_tasks_with_many_iterables _ _ _ _ _ _ _ _ (VBool true));
    [reflexivity | reflexivity | simpl; lia].
Defined.

(** ** When [from_map] succeeds *)

Lemma scan_iterables_ok its iters S :
  Forall2 (fun it l => iterable_items it = Some l) its iters ->
  scan_iterables its S = inr (S ∪ list_to_set (length <$> iters), iters).
Proof.
  intros HF. revert S. induction HF as [|it l its iters Hit HF IH]; intros S; simpl.
  - f_equal. f_equal. set_solver.
  - destruct it as [l'|l'|o]; simpl in Hit; [| |done]; inversion Hit; subst;
      rewrite IH; f_equal; f_equal; set_solver.
Qed.

Lemma from_map_succeeds func its iters n args label token divs meta kw g :
  callable func = true ->
  Forall2 (fun it l => iterable_items it = Some l) its iters ->
  iters <> [] -> n <> 0 -> Forall (fun l => length l = n) iters ->
  (truthy (default (VBool false) (kw !! "produces_tasks")) = true ->
   length iters = 1) ->
  let kw' := delete "produces_tasks" kw in
  let packed := negb (truthy (default (VBool false) (kw !! "produces_tasks"))
                      || Nat.eqb (length iters) 1) in
  let inputs := if packed then zip_star iters else default [] (head iters) in
  let nm := {| label := label_or_funcname label func;
               token := token_or_tokenize token func iters meta kw' |} in
  let layer := AwkwardIOLayer nm inputs (wrap_io_func func args kw' packed) meta in
  from_map func its args label token divs meta kw g =
    (inr (new_array_object layer nm meta
            (match divs with
             | Some d => WithDivisions d
             | None => WithNpartitions (length inputs)
             end)),
     g ++ [layer]).
Proof.
  intros Hc HF Hne Hn0 Hall Hone. unfold from_map. rewrite Hc. simpl.
  unfold mbind, Build_bind, lift. rewrite (scan_iterables_ok _ _ _ HF).
  assert (Hls : (∅ ∪ list_to_set (length <$> iters) : gset nat) = {[ n ]}).
  { apply set_eq. intros x. rewrite elem_of_union, elem_of_list_to_set,
      list_elem_of_fmap, elem_of_singleton. split.
    - intros [Hx|(l & -> & Hl)]; [set_solver|].
      rewrite Forall_forall in Hall. by apply Hall.
    - intros ->. right. destruct iters as [|l iters']; [done|].
      exists l. split; [|by left]. by inversion Hall. }
  rewrite Hls, size_singleton.
  destruct (decide (1 = 0)); [lia|]. destruct (decide (1 < 1)); [lia|].
  destruct (decide (({[ n ]} : gset nat) = {[ 0 ]})) as [Heq|_].
  { apply (inj singleton) in Heq. done. }
  destruct (truthy (default (VBool false) (kw !! "produces_tasks"))) eqn:Ept; simpl.
  - rewrite (Hone eq_refl). simpl.
    unfold mret, Build_ret, construct_layer. by destruct divs.
  - destruct (Nat.eqb (length iters) 1) eqn:Eeq; simpl.
    + apply Nat.eqb_eq in Eeq. rewrite Eeq. simpl.
      unfold mret, Build_ret, construct_layer. by destruct divs.
    + unfold mret, Build_ret, construct_layer. by destruct divs.
Qed.

(** ** C10: a single delayed handle *)


(** ** C1: [from_awkward] *)

Lemma chunk_facts (Ln : nat) (N : Z) :
  (1 <= N)%Z -> 1 <= Ln ->
  let s := ceil_div (Z.of_nat Ln) N in
  let n := Z.to_nat (ceil_div (Z.of_nat Ln) s) in
  let sn := Z.to_nat s in
  (1 <= s)%Z /\ Z.of_nat sn = s /\ 1 <= n /\ (Z.of_nat n <= N)%Z /\
  (n - 1) * sn < Ln /\ Ln <= n * sn.
Proof.
  intros HN HL s n sn.
  assert (Hs := ceil_div_bounds (Z.of_nat Ln) N ltac:(lia)). fold s in Hs.
  assert (Hs1 : (1 <= s)%Z) by nia.
  assert (Hm := ceil_div_bounds (Z.of_nat Ln) s ltac:(lia)).
  set (m := ceil_div (Z.of_nat Ln) s) in *.
  assert (Hm1 : (1 <= m)%Z) by nia.
  assert (HmN : (m <= N)%Z) by nia.
  assert (Hsn : Z.of_nat sn = s) by (unfold sn; lia).
  assert (Hn : Z.of_nat n = m) by (unfold n; lia).
  assert ((n - 1) * sn < Ln).
  { apply Nat2Z.inj_lt. rewrite Nat2Z.inj_mul, Nat2Z.inj_sub by lia. nia. }
  assert (Ln <= n * sn).
  { apply Nat2Z.inj_le. rewrite Nat2Z.inj_mul. nia. }
  repeat split; lia.
Qed.

Lemma py_slice_init {A} (l : list A) (x : A) : py_slice (l ++ [x]) 0 (-1) = l.
Proof.
  unfold py_slice, slice_bound. simpl. rewrite length_app. simpl.
  replace (Z.to_nat (-1 + Z.of_nat (length l + 1))) with (length l) by lia.
  rewrite Nat.sub_0_r. unfold drop. by rewrite take_app_length.
Qed.

Lemma take_min_length {A} (m : nat) (l : list A) :
  take (Nat.min m (length l)) l = take m l.
Proof.
  destruct (le_lt_dec m (length l)).
  - by rewrite Nat.min_l.
  - rewrite Nat.min_r by lia. by rewrite !take_ge by lia.
Qed.

(** A slice with bounds inside the list is a [take] of a [drop]. *)
Lemma py_slice_chunk {A} (xs : list A) (a k : nat) (stop : Z) :
  a <= length xs ->
  Z.to_nat stop = Nat.min (a + k) (length xs) -> (0 <= stop)%Z ->
  py_slice xs (Z.of_nat a) stop = take k (drop a xs).
Proof.
  intros Ha Hstop Hpos. unfold py_slice, slice_bound.
  destruct (Z.ltb_spec (Z.of_nat a) 0); [lia|].
  destruct (Z.ltb_spec stop 0); [lia|].
  rewrite Nat2Z.id, (Nat.min_l a) by lia.
  rewrite Hstop.
  rewrite <- (take_min_length k). rewrite length_drop. f_equal. lia.
Qed.

Lemma concat_chunks_from {A} (l : list A) (s n k : nat) :
  concat (map (fun i => take s (drop (i * s) l)) (seq k n)) =
  take (n * s) (drop (k * s) l).
Proof.
  revert k. induction n as [|n IH]; intros k; simpl; [done|].
  rewrite IH. change (S k * s) with (s + k * s).
  replace (s + k * s) with (k * s + s) by lia.
  rewrite <- drop_drop. by rewrite take_take_drop.
Qed.

Lemma concat_chunks {A} (l : list A) (s n : nat) :
  length l <= n * s ->
  concat (map (fun i => take s (drop (i * s) l)) (seq 0 n)) = l.
Proof.
  intros H. rewrite concat_chunks_from. simpl. by rewrite take_ge.
Qed.

Lemma zip_star_pair (l1 l2 : list PyVal) :
  length l1 = length l2 ->
  zip_star [l1; l2] =
  map (fun i => VTuple [default VNone (l1 !! i); default VNone (l2 !! i)])
      (seq 0 (length l1)).
Proof.
  intros H. unfold zip_star. simpl. by rewrite H, Nat.min_id.
Qed.

(** The collection [from_awkward] builds, in closed form. *)
Lemma from_awkward_result source N label g :
  (1 <= N)%Z -> source <> [] ->
  let L := Z.of_nat (length source) in
  let s := ceil_div L N in
  let n := Z.to_nat (ceil_div L s) in
  let starts := map (fun i : nat => (0 + Z.of_nat i * s)%Z) (seq 0 n) in
  let locs := starts ++ [L] in
  let nm := {| label := LabelStr (str_or label "from-awkward");
               token := TokenizeAwkward source N |} in
  let layer := AwkwardIOLayer nm
                 (zip_star [VInt <$> starts; VInt <$> drop 1 locs])
                 (PackedArgCallable (FromAwkwardFn source) None ∅ true)
                 (Some (TypetracerOfRows source)) in
  from_awkward source N label g =
    (inr (new_array_object layer nm (Some (TypetracerOfRows source))
            (WithDivisions (Some <$> locs))),
     g ++ [layer]).
Proof.
  intros HN Hsrc L s n starts locs nm layer.
  assert (HL : 1 <= length source) by (destruct source; simpl; [done|lia]).
  destruct (chunk_facts (length source) N HN HL) as (Hs & Hsn & Hn1 & HnN & Hlo & Hhi).
  fold L s n in Hs, Hsn, Hn1, HnN, Hlo, Hhi.
  unfold from_awkward. fold L s.
  destruct (Z.eqb_spec N 0); [lia|].
  unfold py_range. destruct (Z.eqb_spec s 0); [lia|].
  unfold range_len. destruct (Z.ltb_spec 0 s); [|lia].
  rewrite Z.sub_0_r. fold n. fold starts.
  rewrite bind_lift_inr. fold locs. unfold locs at 1. rewrite py_slice_init.
  assert (Hlen1 : length starts = n) by (unfold starts; by rewrite length_map, length_seq).
  assert (Hlen2 : length (drop 1 locs) = n).
  { rewrite length_drop. unfold locs. rewrite length_app, Hlen1. simpl. lia. }
  rewrite (from_map_succeeds _ _ [VInt <$> starts; VInt <$> drop 1 locs] n).
  - rewrite lookup_empty. simpl. rewrite delete_empty.
    unfold label_or_funcname, token_or_tokenize, wrap_io_func. simpl.
    assert (Hstr : str_or label "from-awkward" <> "").
    { unfold str_or. destruct label as [l|]; [|done].
      destruct (String.eqb_spec l ""); done. }
    destruct (String.eqb_spec (str_or label "from-awkward") ""); [done|].
    reflexivity.
  - done.
  - repeat constructor.
  - done.
  - lia.
  - repeat constructor; by rewrite length_fmap.
  - rewrite lookup_empty. simpl. done.
Qed.

Lemma starts_lookup (s : Z) (n i : nat) :
  i < n ->
  map (fun i : nat => (0 + Z.of_nat i * s)%Z) (seq 0 n) !! i
  = Some (Z.of_nat i * s)%Z.
Proof.
  intros Hi. rewrite list_lookup_fmap, lookup_seq_lt by done. simpl.
  f_equal.
Qed.

Lemma stops_lookup (s L : Z) (n i : nat) :
  i < n ->
  drop 1 (map (fun i : nat => (0 + Z.of_nat i * s)%Z) (seq 0 n) ++ [L]) !! i
  = Some (if decide (S i < n) then (Z.of_nat (S i) * s)%Z else L).
Proof.
  intros Hi. rewrite lookup_drop. change (1 + i) with (S i).
  case_decide as Hlt.
  - rewrite lookup_app_l by (by rewrite length_map, length_seq).
    by apply starts_lookup.
  - assert (S i = n) as <- by lia.
    rewrite lookup_app_r by (by rewrite length_map, length_seq).
    rewrite length_map, length_seq, Nat.sub_diag. done.
Qed.

(** Task [i] of the collection of [from_awkward] yields the rows
    [i*s .. i*s + s) of the source. *)
Lemma from_awkward_partition source N label g a g' i :
  (1 <= N)%Z -> source <> [] ->
  from_awkward source N label g = (inr a, g') ->
  let s := Z.to_nat (ceil_div (Z.of_nat (length source)) N) in
  i < num_partitions a ->
  compute_partition a i = Some (take s (drop (i * s) source)).
Proof.
  intros HN Hsrc Hfa s Hi.
  rewrite from_awkward_result in Hfa by done. inversion Hfa; subst a g'; clear Hfa.
  assert (HL : 1 <= length source) by (destruct source; simpl; [done|lia]).
  destruct (chunk_facts (length source) N HN HL) as (Hs & Hsn & Hn1 & HnN & Hlo & Hhi).
  fold s in Hsn, Hlo, Hhi.
  set (sz := ceil_div (Z.of_nat (length source)) N) in *.
  set (n := Z.to_nat (ceil_div (Z.of_nat (length source)) sz)) in *.
  unfold compute_partition, num_partitions, new_array_object in *.
  cbn [dask] in *.
  rewrite !length_fmap, length_drop, length_app, !length_map, !length_seq in Hi |- *.
  cbn [length] in Hi |- *.
  replace ((n + 1 - 1) `min` n) with n in Hi |- * by lia.
  rewrite length_map, length_seq in Hi.
  rewrite list_lookup_fmap, lookup_seq_lt by done.
  simpl. rewrite !list_lookup_fmap.
  assert (Hi' : i < n) by lia.
  rewrite lookup_seq_lt, stops_lookup by done. simpl.
  rewrite bool_decide_eq_true_2 by done.
  f_equal. replace (Z.of_nat i * sz)%Z with (Z.of_nat (i * s)) by lia.
  assert (i * s <= length source) by nia.
  apply py_slice_chunk; [done| |].
  - case_decide.
    + rewrite Nat.min_l by nia. lia.
    + rewrite Nat.min_r by nia. lia.
  - case_decide; lia.
Qed.

Lemma from_awkward_partitions source N label g a g' :
  (1 <= N)%Z -> source <> [] ->
  from_awkward source N label g = (inr a, g') ->
  let s := Z.to_nat (ceil_div (Z.of_nat (length source)) N) in
  compute_partitions a =
    Some (map (fun i => take s (drop (i * s) source)) (seq 0 (num_partitions a))).
Proof.
  intros HN Hsrc Hfa s. unfold compute_partitions.
  apply mapM_Some_2, Forall2_fmap_r, Forall_Forall2_diag, Forall_forall.
  intros i Hi. apply elem_of_seq in Hi.
  eapply from_awkward_partition; eauto. lia.
Qed.




(** ** C3: the default granularity of [from_parquet] *)

(** The branch taken when the caller leaves [split_row_groups]
    unspecified, in terms of what the metadata reader returned. *)
Lemma granularity_unspecified (r : ReaderResult) :
  granularity None r = RowGroupWise <->
  (exists l, row_counts r = Some l /\ 1 < length l) /\ is_Some (subrg r).
Proof.
  unfold granularity, resolve_split_row_groups.
  destruct (row_counts r) as [l|], (subrg r) as [sub|]; simpl.
  - destruct (Nat.ltb_spec 1 (length l)); simpl; split; try done.
    + intros _. split; [exists l; split; [done|lia] | by eexists].
    + intros [(l' & Hl' & Hlt) _]. inversion Hl'; subst. lia.
  - rewrite orb_true_r. split; [done|]. intros [_ [x Hx]]. done.
  - split; [done|]. intros [(l' & Hl' & _) _]. done.
  - split; [done|]. intros [(l' & Hl' & _) _]. done.
Qed.

(** C3, at a single data file of two row groups in a directory without
    a [_metadata] file, read with [scan_files=True], the default
    [ignore_metadata=True] and [split_row_groups] unspecified.  The
    documented default is by file; the reader reports the row counts of
    the footer it scanned, the code tests nothing else, and the
    collection is built by row group. *)
Theorem default_split_follows_row_counts :
  documented_default false true (length (metadata lone_file_result)) = FileWise /\
  granularity None lone_file_result = RowGroupWise /\
  exists a g nm meta,
    from_parquet "fs" true true None VNone None lone_file_result []
      = (inr a, g) /\
    dask a = AwkwardIOLayer nm [VTuple [VInt 0; VStr "data/a.parquet"]]
               (FromParquetFragmentWiseFn None "x: int64") meta.
Proof.
  split; [reflexivity|]. split; [reflexivity|].
  match goal with
  | |- exists a g nm meta, ?m = _ /\ _ =>
      let r := eval vm_compute in m in
      match r with
      | (inr ?a, ?g) => exists a, g
      end
  end.
  eexists _, _. split; [by vm_compute|]. reflexivity.
Qed.

(** ** The row-group branch of [from_parquet] *)

Lemma granularity_row_group_subrg split r :
  granularity split r = RowGroupWise -> is_Some (subrg r).
Proof.
  unfold granularity. destruct (subrg r); [by eexists|].
  by rewrite orb_true_r.
Qed.

(** [from_map] on one sized iterable and no keywords. *)
Lemma from_map_single func l label token divs meta g :
  callable func = true -> l <> [] ->
  let nm := {| label := label_or_funcname label func;
               token := token_or_tokenize token func [l] meta ∅ |} in
  let layer := AwkwardIOLayer nm l func meta in
  from_map func [Sized l] None label token divs meta ∅ g =
    (inr (new_array_object layer nm meta
            (match divs with
             | Some d => WithDivisions d
             | None => WithNpartitions (length l)
             end)),
     g ++ [layer]).
Proof.
  intros Hc Hl nm layer.
  rewrite (from_map_succeeds _ _ [l] (length l)).
  - rewrite lookup_empty, delete_empty. simpl.
    unfold wrap_io_func. simpl. done.
  - done.
  - repeat constructor.
  - done.
  - by destruct l.
  - by repeat constructor.
  - by rewrite lookup_empty.
Qed.

Lemma from_map_single_empty func label token divs meta g :
  exists msg,
    from_map func [Sized []] None label token divs meta ∅ g
    = (inl (ValueError msg), g).
Proof.
  destruct (from_map func [Sized []] None label token divs meta ∅ g)
    as [[e|a] g'] eqn:E.
  { apply from_map_raises in E as [-> [msg ->]]. eauto. }
  exfalso. apply from_map_returns in E as (_ & iters & n & HF & _ & Hn0 & Hall & _).
  inversion HF as [|it l its' iters' Hit HF']; subst.
  inversion HF'; subst. simpl in Hit. inversion Hit; subst.
  inversion Hall; subst. done.
Qed.

(** The row-group branch, once the subsets and the pairs are known. *)
Lemma from_parquet_row_group_branch tok im sf cols filt split r sub sub' pairs g :
  granularity split r = RowGroupWise ->
  subrg r = Some sub ->
  planned_subrg sub (actual_paths r) (metadata r) = inr sub' ->
  build_pairs sub' (actual_paths r) = inr pairs ->
  from_parquet tok im sf cols filt split r g =
    from_map (FromParquetFragmentWiseFn cols (subform r))
             [Sized (pair_val <$> pairs)] None (Some "read-parquet")
             (Some (TokenizeParquet tok im cols filt sf split))
             (Some (Some <$> (0%Z :: accumulate (num_rows <$> metadata r))))
             (Some (TypetracerOfForm (subform r))) ∅ g.
Proof.
  intros Hg Hsub Hplan Hpairs. unfold from_parquet.
  rewrite Hg, Hsub, Hplan, bind_lift_inr, Hpairs, bind_lift_inr. done.
Qed.

Lemma from_parquet_row_group_returns tok im sf cols filt split r g a g' :
  granularity split r = RowGroupWise ->
  from_parquet tok im sf cols filt split r g = (inr a, g') ->
  exists sub sub' pairs,
    subrg r = Some sub /\
    planned_subrg sub (actual_paths r) (metadata r) = inr sub' /\
    build_pairs sub' (actual_paths r) = inr pairs /\
    pairs <> [] /\
    g' = g ++ [dask a] /\
    (exists nm meta,
       dask a = AwkwardIOLayer nm (pair_val <$> pairs)
                  (FromParquetFragmentWiseFn cols (subform r)) meta) /\
    divisions a = Some <$> (0%Z :: accumulate (num_rows <$> metadata r)).
Proof.
  intros Hg Hret.
  destruct (granularity_row_group_subrg _ _ Hg) as [sub Hsub].
  unfold from_parquet in Hret. rewrite Hg, Hsub in Hret.
  destruct (planned_subrg sub (actual_paths r) (metadata r)) as [e|sub'] eqn:Hplan;
    [by rewrite bind_lift_inl in Hret|].
  rewrite bind_lift_inr in Hret.
  destruct (build_pairs sub' (actual_paths r)) as [e|pairs] eqn:Hpairs;
    [by rewrite bind_lift_inl in Hret|].
  rewrite bind_lift_inr in Hret.
  exists sub, sub', pairs.
  destruct (decide (pairs = [])) as [->|Hne].
  { destruct (from_map_single_empty (FromParquetFragmentWiseFn cols (subform r))
      (Some "read-parquet") (Some (TokenizeParquet tok im cols filt sf split))
      (Some (Some <$> (0%Z :: accumulate (num_rows <$> metadata r))))
      (Some (TypetracerOfForm (subform r))) g) as [msg Hmsg].
    change (pair_val <$> []) with (@nil PyVal) in Hret.
    rewrite Hmsg in Hret. done. }
  rewrite from_map_single in Hret; [|done|by destruct pairs].
  inversion Hret; subst. repeat split; try done. by eexists _, _.
Qed.

(** ** Running sums *)

Lemma accumulate_from_length acc xs : length (accumulate_from acc xs) = length xs.
Proof. revert acc. induction xs as [|x xs IH]; intros acc; simpl; [done|]. by rewrite IH. Qed.

Lemma accumulate_from_lookup acc xs i :
  i < length xs ->
  accumulate_from acc xs !! i = Some (acc + sum_Z (take (S i) xs))%Z.
Proof.
  revert acc i. induction xs as [|x xs IH]; intros acc i Hi; simpl in *; [lia|].
  destruct i as [|i].
  - cbn. rewrite take_0. cbn. f_equal. lia.
  - cbn [lookup list_lookup accumulate_from]. rewrite IH by lia.
    cbn. f_equal. unfold sum_Z. lia.
Qed.

Lemma divisions_lookup xs i :
  i <= length xs ->
  (0%Z :: accumulate xs) !! i = Some (sum_Z (take i xs)).
Proof.
  intros Hi. destruct i as [|i]; [by rewrite take_0|].
  change ((0%Z :: accumulate xs) !! S i) with (accumulate_from 0 xs !! i).
  rewrite accumulate_from_lookup by lia. f_equal; lia.
Qed.

Lemma aggregate_metadata_num_rows files :
  num_rows <$> aggregate_metadata files =
  concat (map (fun f : string * list RowGroupMeta => num_rows <$> f.2) files).
Proof.
  unfold aggregate_metadata. induction files as [|f files IH]; simpl; [done|].
  rewrite fmap_app, IH. f_equal. unfold set_file_path.
  rewrite <- list_fmap_compose. done.
Qed.

(** ** The planner's subsets and pairs *)

Lemma subrg_is_all_none_true sub :
  sub <> [] -> Forall (fun s => s = SubNone) sub -> subrg_is_all_none sub = inr true.
Proof.
  intros Hne Hall. unfold subrg_is_all_none.
  assert (existsb (fun s => match s with SubList _ => true | _ => false end) sub
          = false) as ->.
  { induction Hall as [|s sub' -> _ IH]; simpl; [done|].
    destruct sub'; [done|]. by apply IH. }
  f_equal. apply andb_true_intro. split; [by destruct sub|].
  clear Hne. induction Hall as [|s sub' -> _ IH]; by simpl.
Qed.

Lemma tally_succeeds keys d md :
  Forall (fun rg => is_Some (first_containing keys (file_path rg))) md ->
  exists d', tally keys d md = inr d'.
Proof.
  intros H. revert d. induction H as [|rg md [p Hp] _ IH]; intros d; simpl.
  - by eexists.
  - unfold tally_step. rewrite Hp. apply IH.
Qed.

Lemma fill_subrg_succeeds paths md :
  md <> [] ->
  Forall (fun rg => is_Some (first_containing (dict_keys [] paths) (file_path rg))) md ->
  fill_subrg paths md =
    inr (map (fun _ => SubList (py_range1 (Z.of_nat (length md) - 1))) paths).
Proof.
  intros Hne H. unfold fill_subrg.
  destruct (tally_succeeds _ (dict_zero paths) _ H) as [d' ->].
  by destruct md.
Qed.

(** When every file has a list of indices, the pairs are those lists
    tagged with their file, file after file. *)
Lemma build_pairs_lists (ls : list (list Z)) (paths : list string) :
  build_pairs (SubList <$> ls) paths =
    inr (concat (zip_with (fun l p => map (fun rg => (rg, p)) l) ls paths)).
Proof.
  revert paths. induction ls as [|l ls IH]; intros [|p paths]; simpl; try done.
  by rewrite IH.
Qed.

Lemma from_parquet_fallback_succeeds tok im sf cols filt split r sub g :
  granularity split r = RowGroupWise ->
  subrg r = Some sub -> sub <> [] -> Forall (fun s => s = SubNone) sub ->
  actual_paths r <> [] -> 2 <= length (metadata r) ->
  Forall (fun rg => is_Some (first_containing (dict_keys [] (actual_paths r))
                                              (file_path rg))) (metadata r) ->
  exists a, from_parquet tok im sf cols filt split r g = (inr a, g ++ [dask a]).
Proof.
  intros Hg Hsub Hne Hall Hpaths Hmd Hfp.
  set (k := (Z.of_nat (length (metadata r)) - 1)%Z).
  assert (Hplan : planned_subrg sub (actual_paths r) (metadata r) =
                  inr (SubList <$> ((fun _ => py_range1 k) <$> actual_paths r))).
  { unfold planned_subrg. rewrite subrg_is_all_none_true by done.
    rewrite fill_subrg_succeeds;
      [|intros E; rewrite E in Hmd; simpl in Hmd; lia|done].
    by rewrite <- list_fmap_compose. }
  rewrite (from_parquet_row_group_branch tok im sf cols filt split r sub _ _ g
             Hg Hsub Hplan (build_pairs_lists _ _)).
  rewrite from_map_single;
    [match goal with |- exists a, (inr ?x, _) = _ => by exists x end|done|].
  destruct (actual_paths r) as [|p ps]; [done|]. simpl.
  assert (py_range1 k <> []) as Hk.
  { unfold py_range1, k. destruct (Z.to_nat _) eqn:E; [lia|done]. }
  destruct (py_range1 k); done.
Qed.

(** ** C5: divisions of the row-group branch *)

(** C5.  When [from_parquet] partitions by row group, the divisions of
    the collection it returns are [0] followed by the running sums of the
    row counts of the row groups in metadata order; the last one is the
    total row count.  Metadata aggregated from data files lists the row
    groups file after file, and within a file in row-group order.  The
    branch does return a collection when the reader reports no subsets,
    there are at least two row groups, and every row group's file path
    occurs in some path of the file list. *)
Theorem row_group_divisions tok im sf cols filt split r g :
  granularity split r = RowGroupWise ->
  let counts := num_rows <$> metadata r in
  (forall a g', from_parquet tok im sf cols filt split r g = (inr a, g') ->
     divisions a = Some <$> (0%Z :: accumulate counts) /\
     (forall i, i <= length (metadata r) ->
        divisions a !! i = Some (Some (sum_Z (take i counts)))) /\
     last (divisions a) = Some (Some (sum_Z counts)) /\
     known_divisions a = true) /\
  (forall files, metadata r = aggregate_metadata files ->
     counts = concat (map (fun f : string * list RowGroupMeta =>
                             num_rows <$> f.2) files)) /\
  (forall sub,
     subrg r = Some sub -> sub <> [] -> Forall (fun s => s = SubNone) sub ->
     actual_paths r <> [] -> 2 <= length (metadata r) ->
     Forall (fun rg => is_Some (first_containing (dict_keys [] (actual_paths r))
                                                 (file_path rg))) (metadata r) ->
     exists a, from_parquet tok im sf cols filt split r g = (inr a, g ++ [dask a])).
Proof.
  intros Hg counts. split; [|split].
  - intros a g' Hret.
    apply from_parquet_row_group_returns in Hret
      as (sub & sub' & pairs & _ & _ & _ & _ & _ & _ & Hd); [|done].
    fold counts in Hd.
    assert (Hlk : forall i, i <= length (metadata r) ->
              divisions a !! i = Some (Some (sum_Z (take i counts)))).
    { intros i Hi. rewrite Hd, list_lookup_fmap, divisions_lookup; [done|].
      unfold counts. by rewrite length_fmap. }
    repeat split; [done|done| |].
    + assert (Hlen : length (divisions a) = S (length (metadata r))).
      { rewrite Hd, length_fmap. simpl. unfold accumulate.
        rewrite accumulate_from_length. unfold counts. by rewrite length_fmap. }
      rewrite last_lookup, Hlen. simpl. rewrite Hlk by lia.
      rewrite take_ge; [done|]. unfold counts. by rewrite length_fmap.
    + unfold known_divisions. rewrite Hd. apply forallb_forall.
      intros d Hd'. apply in_map_iff in Hd' as (z & <- & _). done.
  - intros files Hfiles. unfold counts. rewrite Hfiles.
    apply aggregate_metadata_num_rows.
  - intros sub. by apply from_parquet_fallback_succeeds.
Qed.

Lemma row_group_divisions_witness :
  exists a,
    from_parquet "fs" false false None VNone None two_files_result []
      = (inr a, [] ++ [dask a]) /\
    divisions a = [Some 0; Some 3; Some 7; Some 12; Some 18]%Z.
Proof.
  assert (Hg : granularity None two_files_result = RowGroupWise) by reflexivity.
  destruct (row_group_divisions "fs" false false None VNone None
              two_files_result [] Hg) as (Hdiv & _ & Hret).
  destruct (Hret [SubNone; SubNone]) as [a Ha];
    [reflexivity | done | by repeat constructor | done | simpl; lia
    | repeat constructor; by eexists |].
  exists a. split; [exact Ha|].
  destruct (Hdiv a _ Ha) as (-> & _). reflexivity.
Defined.

(** ** C2: divisions against partitions *)

Lemma from_delayed_divisions_length source meta divs prefix g a g' :
  from_delayed source meta divs prefix g = (inr a, g') ->
  length (divisions a) = num_partitions a + 1.
Proof.
  unfold from_delayed, mbind, Build_bind, mret, Build_ret, construct_layer, raise.
  destruct divs as [d|].
  - case_decide as Hd; [done|]. intros H. inversion H; subst.
    unfold num_partitions. simpl. rewrite length_imap. lia.
  - intros H. inversion H; subst.
    unfold num_partitions. simpl. by rewrite length_imap, length_replicate.
Qed.

Lemma from_map_unknown_divisions_length func its args label token meta kw g a g' :
  from_map func its args label token None meta kw g = (inr a, g') ->
  length (divisions a) = num_partitions a + 1 /\ known_divisions a = false.
Proof.
  intros H. apply from_map_returns in H as (_ & iters & n & _ & _ & _ & _ & _ & H).
  cbv zeta in H. destruct H as [_ ->].
  unfold num_partitions. simpl. rewrite length_replicate. split; [done|].
  unfold known_divisions. simpl. by rewrite Nat.add_1_r.
Qed.

Lemma from_lists_divisions_length source g a g' :
  from_lists source g = (inr a, g') ->
  length (divisions a) = num_partitions a + 1.
Proof.
  unfold from_lists. destruct source as [|first rest]; [done|].
  rewrite from_map_single by done. intros H. inversion H; subst.
  unfold num_partitions. simpl. unfold accumulate.
  rewrite !length_fmap, accumulate_from_length, length_map. simpl. lia.
Qed.

(** [from_map] takes the divisions it is given as they are. *)
Lemma from_map_keeps_given_divisions :
  exists a g,
    from_map (UserFn "f") [Sized [VInt 1; VInt 2; VInt 3]] None None None
             (Some [Some 0%Z; Some 5%Z]) None ∅ [] = (inr a, g) /\
    known_divisions a = true /\ num_partitions a = 3 /\
    length (divisions a) = 2.
Proof. run_builder. by vm_compute. Qed.

(** C2, on a dataset of one file with two row groups read by row group:
    the collection has one partition, the pair of row group [0] with the
    file, and three known divisions. *)
Theorem row_group_divisions_exceed_partitions :
  exists a g,
    from_parquet "fs" true false None VNone (Some true) one_file_result []
      = (inr a, g) /\
    layer_inputs a = [VTuple [VInt 0; VStr "data/a.parquet"]] /\
    divisions a = [Some 0; Some 3; Some 7]%Z /\
    known_divisions a = true /\
    num_partitions a = 1 /\
    length (divisions a) <> num_partitions a + 1.
Proof. run_builder. by vm_compute. Qed.

(** ** C4: the fallback when the reader reports no subsets *)

(** C4, at a single data file of two row groups read by row group.  The
    row groups name no file and the reader reports no subsets.  The
    assignment asked for gives the file its own row groups, [0] and [1];
    the planner pairs the file with row group [0] alone, the range of
    the loop variable left over from the tally, so that row group [1] is
    never read. *)
Theorem fallback_drops_own_row_group :
  let files := [("a.parquet", metadata one_file_result)] in
  subrg one_file_result = Some [SubNone] /\
  Forall (fun rg => file_path rg = "") (metadata one_file_result) /\
  spec_sequential_pairs files (actual_paths one_file_result)
    = [(0, "data/a.parquet"); (1, "data/a.parquet")]%Z /\
  exists a g,
    from_parquet "fs" true false None VNone (Some true) one_file_result []
      = (inr a, g) /\
    layer_inputs a = pair_val <$> [(0, "data/a.parquet")]%Z /\
    layer_inputs a
      <> pair_val <$> spec_sequential_pairs files (actual_paths one_file_result).
Proof.
  cbv zeta. split; [reflexivity|]. split; [by repeat constructor|].
  split; [reflexivity|]. run_builder. by vm_compute.
Qed.

(** ** C7: chunks of [to_dask_array] *)

Lemma leaf_primitive_numeric c p : numeric_leaf c p -> leaf_primitive c = inr p.
Proof. induction 1; simpl; done. Qed.

(** C7, as the code has it.  For a collection with a known
    representative value whose type descends to a numeric leaf (the type
    being that leaf itself exactly when the collection is
    one-dimensional), [to_dask_array] returns a numeric collection whose
    chunks are one NaN-sized chunk per partition along the partition axis
    and a single NaN-sized chunk along each inner axis; for a
    one-dimensional collection that is the partition axis alone. *)
Theorem to_dask_array_chunks array ty p :
  attr_meta array = Some ty ->
  numeric_leaf ty p ->
  (ndim array = 1 <-> exists q, ty = NumpyType q) ->
  exists da,
    to_dask_array array = inr da /\
    dtype da = p /\
    chunks da = replicate (npartitions array) NaN
                :: replicate (ndim array - 1) [NaN] /\
    length (chunks da) = Nat.max 1 (ndim array) /\
    (ndim array = 1 -> chunks da = [replicate (npartitions array) NaN]).
Proof.
  intros Hmeta Hleaf Hdim. unfold to_dask_array. rewrite Hmeta.
  destruct (Nat.eqb_spec (ndim array) 1) as [H1|H1].
  - destruct (proj1 Hdim H1) as [q ->]. inversion Hleaf; subst.
    eexists. split; [reflexivity|]. simpl. rewrite H1. by repeat split.
  - assert (Hnq : forall q, ty <> NumpyType q).
    { intros q ->. apply H1, Hdim. by eexists. }
    destruct Hleaf as [q|c q Hc|c n q Hc|c q Hc]; [by destruct (Hnq q)| | |];
      rewrite (leaf_primitive_numeric _ _ Hc);
      (eexists; split; [reflexivity|]; simpl;
       repeat split; [rewrite length_replicate; lia|lia]).
Qed.

Lemma to_dask_array_chunks_witness :
  exists da,
    to_dask_array matrix_attrs = inr da /\
    chunks da = [[NaN; NaN; NaN]; [NaN]].
Proof.
  destruct (to_dask_array_chunks matrix_attrs
              (RegularType (NumpyType "float64") 2) "float64")
    as (da & Hda & _ & Hchunks & _).
  - reflexivity.
  - repeat constructor.
  - split; [intros H; inversion H | intros [q Hq]; inversion Hq].
  - exists da. split; [exact Hda|]. rewrite Hchunks. reflexivity.
Defined.

(** C7, as stated, fails: the inner axis of a two-dimensional collection
    gets a chunk of size NaN, not of size 1. *)
Lemma to_dask_array_inner_chunk_not_one :
  exists da,
    to_dask_array matrix_attrs = inr da /\
    chunks da = [[NaN; NaN; NaN]; [NaN]] /\
    chunks da <> [[NaN; NaN; NaN]; [Size 1]].
Proof. eexists. split; [reflexivity|]. by split. Qed.

(** ** C6: file names of the writer *)

Lemma string_length_append s1 s2 :
  String.length (s1 +:+ s2) = String.length s1 + String.length s2.
Proof.
  induction s1 as [|c s1 IH]; [done|].
  change (String c s1 +:+ s2) with (String c (s1 +:+ s2)). simpl. by rewrite IH.
Qed.

Lemma zeros_length n : String.length (zeros n) = n.
Proof. induction n as [|n IH]; simpl; [done|]. by rewrite IH. Qed.

(** [ceil_log10]: the least exponent whose power of ten reaches [n]. *)
Lemma ceil_log10_from_spec fuel w p n :
  (0 <= w)%Z -> p = (10 ^ w)%Z -> (n <= 10 ^ (w + Z.of_nat fuel))%Z ->
  let w' := ceil_log10_from fuel w p n in
  (w <= w')%Z /\ (n <= 10 ^ w')%Z /\ (w' = w \/ 10 ^ (w' - 1) < n)%Z.
Proof.
  revert w p. induction fuel as [|fuel IH]; intros w p Hw Hp Hn; simpl.
  - rewrite Z.add_0_r in Hn. lia.
  - destruct (Z.leb_spec n p) as [Hle|Hgt]; [subst; lia|].
    destruct (IH (w + 1)%Z (10 * p)%Z) as (H1 & H2 & H3).
    + lia.
    + subst. rewrite Z.pow_add_r by lia. lia.
    + replace (w + 1 + Z.of_nat fuel)%Z with (w + Z.of_nat (S fuel))%Z by lia. done.
    + repeat split; [lia|done|]. right. destruct H3 as [->|H3]; [|done].
      replace (w + 1 - 1)%Z with w by lia. subst. done.
Qed.

Lemma ceil_log10_spec n :
  (1 <= n)%Z ->
  (0 <= ceil_log10 n)%Z /\ (n <= 10 ^ ceil_log10 n)%Z /\
  (ceil_log10 n = 0 \/ 10 ^ (ceil_log10 n - 1) < n)%Z.
Proof.
  intros Hn. unfold ceil_log10.
  apply (ceil_log10_from_spec _ 0%Z 1%Z n); [lia|done|].
  rewrite Z.add_0_l, Nat2Z.inj_succ, Z2Nat.id by apply Z.log2_up_nonneg.
  destruct (Z.eq_dec n 1%Z) as [->|Hne]; [done|].
  pose proof (Z.log2_up_spec n ltac:(lia)) as [_ Hup].
  pose proof (Z.log2_up_nonneg n) as Hnn.
  pose proof (Z.pow_le_mono_l 2 10 (Z.log2_up n) ltac:(lia)) as Hmono.
  rewrite Z.pow_succ_r by done. lia.
Qed.

(** The decimal numeral of [n]: its length against powers of ten. *)
Lemma str_digits_length_le fuel n acc w :
  n < fuel -> 1 <= w -> n < 10 ^ w ->
  String.length (str_digits fuel n acc) <= w + String.length acc.
Proof.
  revert n acc w. induction fuel as [|fuel IH]; intros n acc w Hf Hw Hn; [lia|].
  simpl. destruct (Nat.ltb_spec n 10) as [Hlt|Hge]; simpl; [lia|].
  destruct w as [|[|w]]; [lia|simpl in Hn; lia|].
  assert (n / 10 < n) by (apply Nat.div_lt; lia).
  assert (n / 10 < 10 ^ S w).
  { apply Nat.Div0.div_lt_upper_bound. by rewrite <- Nat.pow_succ_r'. }
  specialize (IH (n / 10) (String (digit_char (n mod 10)) acc) (S w)
                 ltac:(lia) ltac:(lia) ltac:(done)).
  simpl in IH. lia.
Qed.

Lemma str_digits_length_ge fuel n acc w :
  n < fuel -> (w <= 1 \/ 10 ^ (w - 1) <= n) ->
  w + String.length acc <= String.length (str_digits fuel n acc).
Proof.
  revert n acc w. induction fuel as [|fuel IH]; intros n acc w Hf Hw; [lia|].
  simpl. destruct (Nat.ltb_spec n 10) as [Hlt|Hge]; simpl.
  - destruct Hw as [Hw|Hw]; [lia|].
    destruct (le_lt_dec w 1) as [|Hw2]; [lia|].
    pose proof (Nat.pow_le_mono_r 10 1 (w - 1) ltac:(lia) ltac:(lia)) as Hp.
    simpl in Hp. lia.
  - assert (n / 10 < n) by (apply Nat.div_lt; lia).
    assert (w - 1 <= 1 \/ 10 ^ (w - 1 - 1) <= n / 10) as Hrec.
    { destruct (le_lt_dec w 2) as [|Hw3]; [left; lia|right].
      destruct Hw as [Hw|Hw]; [lia|].
      apply Nat.div_le_lower_bound; [lia|].
      rewrite <- Nat.pow_succ_r'. by replace (S (w - 1 - 1)) with (w - 1) by lia. }
    specialize (IH (n / 10) (String (digit_char (n mod 10)) acc) (w - 1)
                   ltac:(lia) Hrec).
    simpl in IH. lia.
Qed.

Lemma str_digits_head fuel n acc :
  fuel <> 0 ->
  exists d rest, d < 10 /\ str_digits fuel n acc = String (digit_char d) rest.
Proof.
  revert n acc. induction fuel as [|fuel IH]; intros n acc Hf; [done|].
  simpl. destruct (Nat.ltb n 10).
  - exists (n mod 10), acc. split; [|done]. apply Nat.mod_upper_bound. lia.
  - destruct fuel as [|fuel]; [|by apply IH].
    simpl. exists (n mod 10), acc. split; [|done]. apply Nat.mod_upper_bound. lia.
Qed.

Lemma digit_char_not_sign d :
  d < 10 ->
  Ascii.eqb (digit_char d) "+" || Ascii.eqb (digit_char d) "-" = false.
Proof.
  intros Hd. do 10 (destruct d as [|d]; [reflexivity|]). lia.
Qed.

(** [zfill] on a numeral pads with zeros on the left up to the width. *)
Lemma zfill_numeral (k : nat) (w : Z) :
  zfill (str_of_nat k) w =
    zeros (Z.to_nat w - String.length (str_of_nat k)) +:+ str_of_nat k.
Proof.
  unfold zfill.
  destruct (Z.leb_spec w (Z.of_nat (String.length (str_of_nat k)))) as [Hle|Hgt].
  - replace (Z.to_nat w - String.length (str_of_nat k)) with 0 by lia. done.
  - destruct (str_digits_head (S k) k "" ltac:(done)) as (d & rest & Hd & Hs).
    unfold str_of_nat in *. rewrite Hs in *.
    rewrite digit_char_not_sign by done. f_equal. f_equal. lia.
Qed.

Lemma numeral_length_le k w :
  1 <= w -> k < 10 ^ w -> String.length (str_of_nat k) <= w.
Proof.
  intros Hw Hk. unfold str_of_nat.
  pose proof (str_digits_length_le (S k) k "" w ltac:(lia) Hw Hk) as H.
  change (String.length "") with 0 in H. lia.
Qed.

Lemma numeral_length_ge k w :
  10 ^ (w - 1) <= k -> w <= String.length (str_of_nat k).
Proof.
  intros Hk. unfold str_of_nat.
  pose proof (str_digits_length_ge (S k) k "" w ltac:(lia) (or_intror Hk)) as H.
  change (String.length "") with 0 in H. lia.
Qed.

(** The width the writer pads to is the number of digits of the largest
    block index. *)
Lemma zfill_width_digits (N : nat) :
  2 <= N ->
  Z.to_nat (ceil_log10 (Z.of_nat N)) = String.length (str_of_nat (N - 1)).
Proof.
  intros HN.
  destruct (ceil_log10_spec (Z.of_nat N) ltac:(lia)) as (H0 & Hup & Hlo).
  set (w := ceil_log10 (Z.of_nat N)) in *.
  assert (Hw1 : (1 <= w)%Z).
  { destruct (Z.eq_dec w 0%Z) as [E|]; [|lia]. rewrite E in Hup. simpl in Hup. lia. }
  destruct Hlo as [|Hlo]; [lia|].
  set (wn := Z.to_nat w).
  assert (Hup' : N <= 10 ^ wn).
  { apply Nat2Z.inj_le. rewrite Nat2Z.inj_pow. unfold wn. by rewrite Z2Nat.id by lia. }
  assert (Hlo' : 10 ^ (wn - 1) < N).
  { apply Nat2Z.inj_lt. rewrite Nat2Z.inj_pow, Nat2Z.inj_sub by (unfold wn; lia).
    unfold wn. by rewrite Z2Nat.id by lia. }
  apply Nat.le_antisymm.
  - apply numeral_length_ge. lia.
  - apply numeral_length_le; [unfold wn|]; lia.
Qed.

(** Every block index has at most as many digits as the largest one,
    and the padding fills up to exactly that many. *)
Lemma zfill_width_covers (N K : nat) :
  1 <= N -> K < N ->
  Z.to_nat (ceil_log10 (Z.of_nat N)) - String.length (str_of_nat K)
  = String.length (str_of_nat (N - 1)) - String.length (str_of_nat K) /\
  String.length (str_of_nat K) <= String.length (str_of_nat (N - 1)).
Proof.
  intros HN HK. destruct (decide (N = 1)) as [->|HN1].
  - assert (K = 0) as -> by lia. by vm_compute.
  - rewrite zfill_width_digits by lia. split; [done|].
    destruct (decide (K = N - 1)) as [->|]; [done|].
    pose proof (zfill_width_digits N ltac:(lia)) as Hd.
    destruct (ceil_log10_spec (Z.of_nat N) ltac:(lia)) as (H0 & Hup & Hlo).
    rewrite <- Hd. apply numeral_length_le.
    + destruct (Z.eq_dec (ceil_log10 (Z.of_nat N)) 0%Z) as [E|]; [|lia].
      rewrite E in Hup. simpl in Hup. lia.
    + apply Nat2Z.inj_lt. rewrite Nat2Z.inj_pow, Z2Nat.id by lia. lia.
Qed.

Lemma part_number_length path rm (N K : nat) :
  1 <= N -> K < N ->
  String.length (part_number {| tp_path := path; tp_return_metadata := rm;
                                tp_zfill := ceil_log10 (Z.of_nat N) |} K)
  = String.length (str_of_nat (N - 1)).
Proof.
  intros HN HK. unfold part_number. cbn [tp_zfill].
  destruct (zfill_width_covers N K HN HK) as [Heq Hle].
  rewrite zfill_numeral, Heq, string_length_append, zeros_length. lia.
Qed.

(** C6, as the code has it.  For a collection of [N >= 1] partitions,
    partition [K < N] is written to [<root><sep>part<digits>.parquet],
    where [<digits>] is the decimal numeral of [K] padded with zeros on
    the left to the number of digits of [N - 1], the largest index (so
    for [N = 10] the names run from [part0.parquet] to [part9.parquet]). *)
Theorem part_file_names (path sep : string) (N K : nat) :
  1 <= N -> K < N ->
  exists fn,
    ToParquetFn_init path false (Some (Z.of_nat N)) = inr fn /\
    part_filename fn K =
      "part" +:+ (zeros (String.length (str_of_nat (N - 1))
                         - String.length (str_of_nat K))
                  +:+ str_of_nat K) +:+ ".parquet" /\
    String.length (part_number fn K) = String.length (str_of_nat (N - 1)) /\
    forall data files,
      ToParquetFn_call sep fn data K files =
        <[ path +:+ sep +:+ part_filename fn K := data ]> files.
Proof.
  intros HN HK. unfold ToParquetFn_init.
  destruct (Z.leb_spec (Z.of_nat N) 0); [lia|].
  eexists. split; [reflexivity|].
  destruct (zfill_width_covers N K HN HK) as [Heq Hle].
  split; [|split].
  - unfold part_filename, part_number. cbn [tp_zfill].
    by rewrite zfill_numeral, Heq.
  - by apply part_number_length.
  - intros data files. reflexivity.
Qed.

Lemma part_file_names_witness :
  exists fn,
    ToParquetFn_init "root" false (Some 10%Z) = inr fn /\
    part_filename fn 3 = "part3.parquet" /\
    forall data files,
      ToParquetFn_call "/" fn data 3 files = <[ "root/part3.parquet" := data ]> files.
Proof.
  destruct (part_file_names "root" "/" 10 3) as (fn & Hfn & Hname & _ & Hcall);
    [lia | lia |].
  exists fn. split; [exact Hfn|]. split; [rewrite Hname; reflexivity|].
  intros data files. rewrite Hcall, Hname. reflexivity.
Defined.

(** C6, as stated, fails: with ten partitions the numbers are padded to
    one digit, not to the two digits of [10]; partition [3] goes to
    [part3.parquet], not to [part03.parquet]. *)
Lemma part_names_not_width_of_count :
  exists fn,
    ToParquetFn_init "root" false (Some 10%Z) = inr fn /\
    part_filename fn 3 = "part3.parquet" /\
    part_filename fn 3 <> "part03.parquet" /\
    String.length (str_of_nat 10) = 2 /\
    String.length (part_number fn 3) <> String.length (str_of_nat 10).
Proof. eexists. split; [reflexivity|]. by vm_compute. Qed.

(** ** Further facts *)

(** An empty source never yields a collection: the chunk size is zero and
    [range] rejects a zero step. *)
Lemma from_awkward_empty_raises N label :
  (N <> 0)%Z ->
  exists msg, run (from_awkward [] N label) = (inl (ValueError msg), []).
Proof.
  intros HN. unfold run, from_awkward. simpl.
  destruct (Z.eqb_spec N 0); [done|].
  rewrite ceil_div_zero by done. by eexists.
Qed.

(** The scenario of three rows in three partitions. *)
Lemma from_awkward_three_rows :
  let rows := [VList [VInt 1; VInt 2; VInt 3]; VList [VInt 4];
               VList [VInt 5; VInt 6; VInt 7; VInt 8]] in
  exists a g,
    run (from_awkward rows 3 None) = (inr a, g) /\
    divisions a = [Some 0; Some 1; Some 2; Some 3]%Z /\
    compute_partitions a =
      Some [[VList [VInt 1; VInt 2; VInt 3]]; [VList [VInt 4]];
            [VList [VInt 5; VInt 6; VInt 7; VInt 8]]].
Proof. cbv zeta. run_builder. by vm_compute. Qed.

(** The scenario of two lists of lists. *)
Lemma from_lists_two_partitions :
  let a1 := [VList [VInt 1; VInt 2; VInt 3]; VList [VInt 4]] in
  let a2 := [VList [VInt 5]; VList [VInt 6; VInt 7; VInt 8]] in
  exists a g,
    run (from_lists [a1; a2]) = (inr a, g) /\
    divisions a = [Some 0; Some 2; Some 4]%Z /\
    compute_partitions a = Some [a1; a2].
Proof. cbv zeta. run_builder. by vm_compute. Qed.

(** ** The files [to_parquet] leaves behind *)

Lemma string_app_assoc s1 s2 s3 : (s1 +:+ s2) +:+ s3 = s1 +:+ (s2 +:+ s3).
Proof.
  induction s1 as [|c s1 IH]; [done|].
  change (String c s1 +:+ s2) with (String c (s1 +:+ s2)).
  change (String c (s1 +:+ s2) +:+ s3) with (String c ((s1 +:+ s2) +:+ s3)).
  by rewrite IH.
Qed.

Lemma string_app_inj_length s1 s2 t1 t2 :
  String.length s1 = String.length s2 -> s1 +:+ t1 = s2 +:+ t2 -> s1 = s2.
Proof.
  revert s2. induction s1 as [|c s1 IH]; intros [|c' s2] Hlen H; try done.
  change (String c (s1 +:+ t1) = String c' (s2 +:+ t2)) in H.
  inversion H; subst. f_equal. apply IH; [|done]. simpl in Hlen. lia.
Qed.

Lemma digits_value_app s1 s2 acc :
  digits_value (s1 +:+ s2) acc = digits_value s2 (digits_value s1 acc).
Proof.
  revert acc. induction s1 as [|c s1 IH]; intros acc; [done|].
  change (String c s1 +:+ s2) with (String c (s1 +:+ s2)). simpl. by rewrite IH.
Qed.

Lemma digits_value_zeros z : digits_value (zeros z) 0 = 0.
Proof. induction z as [|z IH]; [done|]. simpl. exact IH. Qed.

Lemma digit_char_value d : d < 10 -> nat_of_ascii (digit_char d) - 48 = d.
Proof. intros Hd. do 10 (destruct d as [|d]; [reflexivity|]). lia. Qed.

Lemma str_digits_acc fuel n acc :
  str_digits fuel n acc = str_digits fuel n "" +:+ acc.
Proof.
  revert n acc. induction fuel as [|fuel IH]; intros n acc; [done|].
  simpl. destruct (Nat.ltb n 10); [done|].
  rewrite (IH _ (String _ acc)), (IH _ (String _ "")).
  by rewrite string_app_assoc.
Qed.

Lemma digits_value_numeral fuel n :
  n < fuel -> digits_value (str_digits fuel n "") 0 = n.
Proof.
  revert n. induction fuel as [|fuel IH]; intros n Hf; [lia|].
  cbn [str_digits]. destruct (Nat.ltb_spec n 10) as [Hlt|Hge].
  - cbn [digits_value].
    rewrite digit_char_value by (apply Nat.mod_upper_bound; lia).
    rewrite Nat.mod_small by done. lia.
  - rewrite str_digits_acc, digits_value_app.
    assert (n / 10 < n) by (apply Nat.div_lt; lia).
    rewrite IH by lia. cbn [digits_value].
    rewrite digit_char_value by (apply Nat.mod_upper_bound; lia).
    pose proof (Nat.div_mod_eq n 10). lia.
Qed.

(** Different block indices get different numbers, whatever the width. *)
Lemma part_number_inj fn k1 k2 :
  part_number fn k1 = part_number fn k2 -> k1 = k2.
Proof.
  unfold part_number. rewrite !zfill_numeral. intros H.
  apply (f_equal (fun s => digits_value s 0)) in H.
  rewrite !digits_value_app, !digits_value_zeros in H.
  unfold str_of_nat in H. by rewrite !digits_value_numeral in H by lia.
Qed.

Lemma foldl_insert_lookup {A} (name : nat -> string) (l : list A)
    (files : gmap string A) k d :
  (forall i j, i < length l -> j < length l -> name i = name j -> i = j) ->
  l !! k = Some d ->
  foldl (fun fs (kd : nat * A) => <[ name kd.1 := kd.2 ]> fs) files
        (imap (fun k d => (k, d)) l) !! name k = Some d.
Proof.
  revert k d. induction l as [|x l IH] using rev_ind; intros k d Hinj Hk; [done|].
  rewrite imap_app, foldl_app. simpl. rewrite Nat.add_0_r.
  rewrite length_app in Hinj. simpl in Hinj.
  destruct (decide (k = length l)) as [->|Hne].
  - rewrite lookup_app_r, Nat.sub_diag in Hk by lia. simpl in Hk.
    inversion Hk; subst. by rewrite lookup_insert_eq.
  - assert (k < length l).
    { apply lookup_lt_Some in Hk. rewrite length_app in Hk. simpl in Hk. lia. }
    rewrite lookup_insert_ne.
    + apply IH; [|by rewrite lookup_app_l in Hk].
      intros i j Hi Hj. apply Hinj; lia.
    + intros Heq. apply Hinj in Heq; lia.
Qed.

(** After [to_parquet], every partition is found under its own name. *)
Lemma to_parquet_files sep partitions path files :
  partitions <> [] ->
  exists fn files',
    ToParquetFn_init path false (Some (Z.of_nat (length partitions))) = inr fn /\
    to_parquet sep partitions path files = inr files' /\
    forall k d, partitions !! k = Some d ->
      files' !! (path +:+ sep +:+ part_filename fn k) = Some d.
Proof.
  intros Hne. unfold to_parquet, ToParquetFn_init.
  destruct (Z.leb_spec (Z.of_nat (length partitions)) 0) as [Hle|_].
  { destruct partitions; [done|simpl in Hle; lia]. }
  eexists _, _. split; [reflexivity|]. split; [reflexivity|].
  intros k d Hk. unfold ToParquetFn_call, write_partition.
  cbn [tp_path].
  set (fn := {| tp_path := path; tp_return_metadata := false;
                tp_zfill := ceil_log10 (Z.of_nat (length partitions)) |}).
  apply (foldl_insert_lookup (fun k => path +:+ sep +:+ part_filename fn k));
    [|done].
  intros i j Hi Hj Heq. do 2 apply (inj (String.app _)) in Heq.
  unfold part_filename in Heq. apply (inj (String.app _)) in Heq.
  apply (part_number_inj fn).
  eapply string_app_inj_length; [|exact Heq].
  unfold fn.
  rewrite !part_number_length; [done|destruct partitions; simpl; [done|lia]|lia..].
Qed.

(** * Further properties of the two modules *)

(** Takes the value a builder is shown to return as the witness of
    [exists a, (inr v, _) = (inr a, _) /\ _]. *)
Ltac take_result :=
  match goal with
  | |- exists a, (inr ?x, _) = _ /\ _ => exists x; split; [reflexivity|]
  | |- exists a, (inr ?x, _) = _ => exists x; reflexivity
  end.

(** ** [from_map]: when it returns and what its tasks compute *)

Lemma Forall_items_Forall2 (its : list PyIterable) (n : nat) :
  Forall (fun it => exists l, iterable_items it = Some l /\ length l = n) its ->
  exists iters,
    Forall2 (fun it l => iterable_items it = Some l) its iters /\
    Forall (fun l : list PyVal => length l = n) iters.
Proof.
  induction 1 as [|it its (l & Hl & Hn) _ (iters & HF & Hall)].
  - exists []. by split.
  - exists (l :: iters). split; by constructor.
Qed.

(** X1.  Given a representative value, [from_map] returns a collection
    exactly when the function is callable, there is at least one
    iterable, every argument is iterable, all have one common non-zero
    length, and [produces_tasks] is not combined with several
    iterables. *)
Theorem from_map_returns_iff func its args label token divs m kw g :
  (exists a g',
     from_map func its args label token divs (Some m) kw g = (inr a, g')) <->
  callable func = true /\
  its <> [] /\
  (exists n, n <> 0 /\
     Forall (fun it => exists l, iterable_items it = Some l /\ length l = n) its) /\
  (truthy (default (VBool false) (kw !! "produces_tasks")) = true ->
   length its = 1).
Proof.
  split.
  - intros (a & g' & H).
    apply from_map_returns in H as (Hc & iters & n & HF & Hne & Hn0 & Hall & Hone & _).
    split; [done|]. split.
    { intros ->. by inversion HF; subst. }
    split.
    + exists n. split; [done|].
      clear Hne Hone. induction HF as [|it l its iters Hit HF IH]; [constructor|].
      inversion Hall; subst. constructor; [by exists l|by apply IH].
    + intros Hpt. rewrite (Forall2_length _ _ _ HF). by apply Hone.
  - intros (Hc & Hne & (n & Hn0 & Hall) & Hone).
    destruct (Forall_items_Forall2 _ _ Hall) as (iters & HF & Hall').
    eexists _, _. apply (from_map_succeeds _ _ iters n); try done.
    + intros ->. apply Forall2_nil_inv_r in HF. done.
    + intros Hpt. rewrite <- (Forall2_length _ _ _ HF). by apply Hone.
Qed.

Lemma zip_star_length_min (it : list PyVal) (rest : list (list PyVal)) (n : nat) :
  length it = n -> Forall (fun l => length l = n) rest ->
  foldr (fun l m => Nat.min (length l) m) (length it) rest = n.
Proof.
  intros Hit. induction 1 as [|l rest Hl _ IH]; simpl; [done|].
  rewrite IH, Hl. apply Nat.min_id.
Qed.

Lemma zip_star_lookup (iters : list (list PyVal)) (n i : nat) :
  iters <> [] -> Forall (fun l => length l = n) iters -> i < n ->
  zip_star iters !! i
  = Some (VTuple (map (fun l : list PyVal => default VNone (l !! i)) iters)).
Proof.
  intros Hne Hall Hi. destruct iters as [|it rest]; [done|].
  unfold zip_star. inversion Hall; subst.
  rewrite zip_star_length_min with (n := length it) by done.
  by rewrite list_lookup_fmap, lookup_seq_lt.
Qed.

Lemma zip_star_length (iters : list (list PyVal)) (n : nat) :
  iters <> [] -> Forall (fun l => length l = n) iters ->
  length (zip_star iters) = n.
Proof.
  intros Hne Hall. destruct iters as [|it rest]; [done|].
  unfold zip_star. inversion Hall; subst.
  rewrite zip_star_length_min with (n := length it) by done.
  by rewrite length_map, length_seq.
Qed.

(** A task runs what its call computes. *)
Lemma run_io_func_task_call f x :
  run_io_func f x =
    c ← task_call f x; call_io_func c.1.1 c.1.2 c.2.
Proof.
  destruct f as [o|fn|arr| |c s|c s|f' args kwargs packed]; try done.
  cbn [run_io_func task_call].
  destruct packed; [destruct x|]; done.
Qed.

(** X2.  Given a representative value, two or more iterables of a common
    non-zero length [n] and no true [produces_tasks], [from_map] builds
    [n] tasks around a [PackedArgCallable] that unpacks its input.  The
    input of task [i] is the tuple of the [i]-th items of the iterables,
    in their order, and the call the task makes is the function on these
    items first, then [args], with the keywords left after
    [produces_tasks] is taken out. *)
Theorem from_map_zips_items func its iters n args label token divs m kw g :
  callable func = true ->
  Forall2 (fun it l => iterable_items it = Some l) its iters ->
  2 <= length iters -> n <> 0 -> Forall (fun l => length l = n) iters ->
  truthy (default (VBool false) (kw !! "produces_tasks")) = false ->
  let kw' := delete "produces_tasks" kw in
  exists a,
    from_map func its args label token divs (Some m) kw g
      = (inr a, g ++ [dask a]) /\
    num_partitions a = n /\
    layer_io_func a = Some (PackedArgCallable func args kw' true) /\
    forall i, i < n ->
      exists xs,
        Forall2 (fun (l : list PyVal) x => l !! i = Some x) iters xs /\
        layer_inputs a !! i = Some (VTuple xs) /\
        partition_call a i = Some (func, xs ++ default [] args, kw') /\
        compute_partition a i = call_io_func func (xs ++ default [] args) kw'.
Proof.
  intros Hc HF Hlen Hn0 Hall Hpt kw'.
  assert (Hne : iters <> []) by (intros ->; simpl in Hlen; lia).
  pose proof (from_map_succeeds func its iters n args label token divs (Some m) kw g
                Hc HF Hne Hn0 Hall) as Hok.
  rewrite Hpt in Hok. simpl in Hok.
  assert (Nat.eqb (length iters) 1 = false) as Heq by (apply Nat.eqb_neq; lia).
  rewrite Heq in Hok. simpl in Hok. specialize (Hok ltac:(done)).
  eexists. split; [exact Hok|].
  unfold num_partitions, layer_inputs, layer_io_func, partition_call,
    compute_partition, new_array_object.
  cbn [dask]. split; [by apply zip_star_length|].
  split; [by unfold wrap_io_func|].
  intros i Hi.
  exists (map (fun l : list PyVal => default VNone (l !! i)) iters).
  rewrite zip_star_lookup with (n := n) by done.
  split; [|split; [done|split]].
  - apply Forall2_fmap_r, Forall_Forall2_diag.
    eapply Forall_impl; [exact Hall|]. intros l Hl. simpl in Hl |- *.
    assert (i < length l) as Hil by lia.
    destruct (lookup_lt_is_Some_2 l i Hil) as [x ->]. done.
  - simpl. unfold wrap_io_func. simpl. done.
  - simpl. unfold wrap_io_func. simpl. done.
Qed.

Lemma from_map_zips_items_witness :
  exists a,
    from_map (UserFn "f")
             [Sized [VInt 1; VInt 2; VInt 3]; Unsized [VInt 4; VInt 5; VInt 6]]
             (Some [VStr "z"]) None None None (Some (TypetracerOfRows [])) ∅ []
      = (inr a, [] ++ [dask a]) /\
    layer_inputs a = [VTuple [VInt 1; VInt 4]; VTuple [VInt 2; VInt 5];
                      VTuple [VInt 3; VInt 6]] /\
    partition_call a 1 = Some (UserFn "f", [VInt 2; VInt 5; VStr "z"], ∅).
Proof.
  destruct (from_map_zips_items (UserFn "f")
              [Sized [VInt 1; VInt 2; VInt 3]; Unsized [VInt 4; VInt 5; VInt 6]]
              [[VInt 1; VInt 2; VInt 3]; [VInt 4; VInt 5; VInt 6]] 3
              (Some [VStr "z"]) None None None (TypetracerOfRows []) ∅ [])
    as (a & Ha & _ & _ & Hcall);
    [reflexivity | by repeat constructor | simpl; lia | lia
    | by repeat constructor | reflexivity |].
  exists a. split; [exact Ha|].
  destruct (Hcall 1 ltac:(lia)) as (xs & Hxs & _ & Hc & _).
  apply Forall2_cons_inv_l in Hxs as (x1 & xs1 & Hx1 & Hxs & ->).
  apply Forall2_cons_inv_l in Hxs as (x2 & xs2 & Hx2 & Hxs & ->).
  apply Forall2_nil_inv_l in Hxs as ->.
  simpl in Hx1, Hx2. injection Hx1 as <-. injection Hx2 as <-.
  split; [|by rewrite Hc, delete_empty].
  vm_compute in Ha. inversion Ha; subst a. reflexivity.
Defined.

(** ** [from_lists] *)

(** X3.  For a non-empty list of lists, [from_lists] returns a collection
    with one partition per outer list; its divisions are known and are
    [0] followed by the running sums of the lengths; partition [i]
    computes to list [i].  On the empty list it raises [IndexError]
    without constructing a layer. *)
Theorem from_lists_partitions (source : list (list PyVal)) g :
  source <> [] ->
  (exists a,
     from_lists source g = (inr a, g ++ [dask a]) /\
     num_partitions a = length source /\
     divisions a =
       Some <$> (0%Z :: accumulate (map (fun l => Z.of_nat (length l)) source)) /\
     known_divisions a = true /\
     compute_partitions a = Some source) /\
  exists msg, from_lists [] g = (inl (IndexError msg), g).
Proof.
  intros Hne. split; [|by eexists].
  unfold from_lists. destruct source as [|first rest]; [done|].
  rewrite from_map_single by done.
  take_result.
  unfold compute_partitions, compute_partition, num_partitions, new_array_object.
  cbn [dask divisions]. rewrite length_fmap.
  repeat split.
  - unfold known_divisions. cbn [divisions]. apply forallb_forall.
    intros d Hd. apply in_map_iff in Hd as (z & <- & _). done.
  - apply mapM_Some_2.
    apply Forall2_same_length_lookup. split; [by rewrite length_seq|].
    intros i j l Hj Hl. apply lookup_seq in Hj as [-> Hi].
    rewrite Nat.add_0_l, list_lookup_fmap, Hl. simpl.
    by rewrite bool_decide_eq_true_2.
Qed.

Lemma from_lists_partitions_witness :
  exists a,
    from_lists [[VInt 1; VInt 2]; []; [VInt 3]] [] = (inr a, [] ++ [dask a]) /\
    divisions a = [Some 0; Some 2; Some 2; Some 3]%Z /\
    compute_partitions a = Some [[VInt 1; VInt 2]; []; [VInt 3]].
Proof.
  destruct (from_lists_partitions [[VInt 1; VInt 2]; []; [VInt 3]] [])
    as ((a & Ha & _ & Hd & _ & Hp) & _); [done|].
  exists a. split; [exact Ha|]. split; [rewrite Hd; reflexivity | exact Hp].
Defined.

(** ** [from_delayed] *)

(** X4.  Given a representative value, [from_delayed] returns a
    collection exactly when no divisions are given or the given divisions
    are one longer than the list of handles (the empty list of handles
    included).  The collection then has one task per handle, task [i]
    being the key of handle [i], the representative value given, and the
    divisions given or else all unknown; otherwise [ValueError] is raised
    and no layer is constructed. *)
Theorem from_delayed_checks_divisions source m divs prefix g :
  let parts := delayed_parts source in
  let nm := {| label := LabelStr prefix; token := TokenizeParts parts |} in
  ((exists a g', from_delayed source (Some m) divs prefix g = (inr a, g')) <->
   (forall d, divs = Some d -> length d = length parts + 1)) /\
  (forall a g', from_delayed source (Some m) divs prefix g = (inr a, g') ->
     g' = g ++ [dask a] /\
     dask a = DelayedLayer nm (imap (fun i part => ((nm, i), key part)) parts) parts /\
     _meta a = Some m /\
     num_partitions a = length parts /\
     divisions a = default (replicate (length parts + 1) None) divs /\
     length (divisions a) = num_partitions a + 1) /\
  (forall e g', from_delayed source (Some m) divs prefix g = (inl e, g') ->
     g' = g /\ exists msg, e = ValueError msg).
Proof.
  intros parts nm.
  unfold from_delayed, mbind, Build_bind, mret, Build_ret, construct_layer, raise.
  fold (delayed_parts source). fold parts. fold nm.
  destruct divs as [d|]; simpl.
  - destruct (decide (length d <> length parts + 1)) as [Hbad|Hok].
    + split; [|split].
      * split; [by intros (a & g' & H)|].
        intros H. destruct Hbad. by apply H.
      * intros a g' H. done.
      * intros e g' H. inversion H; subst. eauto.
    + assert (length d = length parts + 1) as Hlen
        by (destruct (decide (length d = length parts + 1)); [done|by destruct Hok]).
      split; [|split].
      * split; [|by eexists _, _].
        intros _ d' Hd'. by inversion Hd'; subst.
      * intros a g' H. inversion H; subst.
        unfold num_partitions. simpl. rewrite length_imap. by repeat split.
      * intros e g' H. done.
  - split; [|split].
    + split; [done|by eexists _, _].
    + intros a g' H. inversion H; subst.
      unfold num_partitions. simpl. rewrite length_imap, length_replicate.
      by repeat split.
    + intros e g' H. done.
Qed.

(** ** [from_awkward]: even splits and rejected calls *)

Lemma ceil_div_eq (a b q : Z) :
  (0 < b)%Z -> ((q - 1) * b < a <= q * b)%Z -> ceil_div a b = q.
Proof.
  intros Hb Hq. pose proof (ceil_div_bounds a b Hb). nia.
Qed.

(** X5.  When the number of rows is [N * q] with [N >= 1] and [q >= 1],
    [from_awkward] returns exactly [N] partitions of [q] rows each, with
    divisions [0, q, 2q, ..., N*q], and the partitions concatenate to the
    source. *)
Theorem from_awkward_even_split source (N q : nat) label g :
  1 <= N -> 1 <= q -> length source = N * q ->
  exists a,
    from_awkward source (Z.of_nat N) label g = (inr a, g ++ [dask a]) /\
    num_partitions a = N /\
    divisions a = map (fun i : nat => Some (Z.of_nat (i * q))) (seq 0 (N + 1)) /\
    exists parts,
      compute_partitions a = Some parts /\
      length parts = N /\
      Forall (fun rows => length rows = q) parts /\
      concat parts = source.
Proof.
  intros HN Hq Hlen.
  assert (Hsrc : source <> []) by (intros ->; simpl in Hlen; nia).
  assert (Hs : ceil_div (Z.of_nat (length source)) (Z.of_nat N) = Z.of_nat q).
  { apply ceil_div_eq; [lia|]. rewrite Hlen, Nat2Z.inj_mul. nia. }
  assert (Hn : ceil_div (Z.of_nat (length source)) (Z.of_nat q) = Z.of_nat N).
  { apply ceil_div_eq; [lia|]. rewrite Hlen, Nat2Z.inj_mul. nia. }
  pose proof (from_awkward_result source (Z.of_nat N) label g ltac:(lia) Hsrc) as Hres.
  cbv zeta in Hres. rewrite Hs, Hn, Nat2Z.id in Hres.
  pose proof (from_awkward_partitions source (Z.of_nat N) label g _ _
                ltac:(lia) Hsrc Hres) as Hparts.
  cbv zeta in Hparts. rewrite Hs, Nat2Z.id in Hparts.
  eexists. split; [exact Hres|].
  set (a := new_array_object _ _ _ _) in *.
  assert (HnN : num_partitions a = N).
  { unfold a, num_partitions, new_array_object. cbn [dask].
    rewrite zip_star_pair
      by (rewrite !length_fmap, length_drop, length_app, !length_map, !length_seq;
          simpl; lia).
    by rewrite length_map, length_seq, length_fmap, length_map, length_seq. }
  rewrite HnN in Hparts. split; [done|]. split.
  - unfold a, new_array_object. cbn [divisions].
    rewrite seq_app, map_app, fmap_app. f_equal.
    + rewrite <- !list_fmap_compose. apply list_fmap_ext. intros i x _. simpl.
      f_equal. lia.
    + simpl. rewrite Hlen. do 2 f_equal. 
  - eexists. split; [exact Hparts|]. split; [by rewrite length_map, length_seq|].
    split.
    + apply Forall_forall. intros rows Hrows.
      apply list_elem_of_fmap in Hrows as (i & -> & Hi). apply elem_of_seq in Hi.
      rewrite length_take, length_drop. nia.
    + apply concat_chunks. lia.
Qed.

Lemma from_awkward_even_split_witness :
  exists a,
    from_awkward (VInt <$> [1; 2; 3; 4; 5; 6]%Z) 3 None [] = (inr a, [] ++ [dask a]) /\
    num_partitions a = 3 /\
    divisions a = [Some 0; Some 2; Some 4; Some 6]%Z.
Proof.
  destruct (from_awkward_even_split (VInt <$> [1; 2; 3; 4; 5; 6]%Z) 3 2 None [])
    as (a & Ha & Hn & Hd & _); [lia | lia | reflexivity |].
  exists a. split; [exact Ha|]. split; [exact Hn|]. rewrite Hd. reflexivity.
Defined.

Lemma from_map_pair_empty func l label token divs meta g :
  exists msg,
    from_map func [Sized []; Sized l] None label token divs meta ∅ g
    = (inl (ValueError msg), g).
Proof.
  destruct (from_map func [Sized []; Sized l] None label token divs meta ∅ g)
    as [[e|a] g'] eqn:E.
  { apply from_map_raises in E as [-> [msg ->]]. eauto. }
  exfalso. apply from_map_returns in E as (_ & iters & n & HF & _ & Hn0 & Hall & _).
  inversion HF as [|it l0 its' iters' Hit HF']; subst.
  simpl in Hit. inversion Hit; subst. inversion Hall; subst. done.
Qed.

(** X6.  [from_awkward] never returns a collection for an empty source
    or a non-positive partition count: it raises [ZeroDivisionError] for
    a count of zero and [ValueError] otherwise, and constructs no layer. *)
Theorem from_awkward_rejects source N label g :
  (N <= 0)%Z \/ source = [] ->
  exists e,
    from_awkward source N label g = (inl e, g) /\
    (N = 0%Z -> exists msg, e = ZeroDivisionError msg) /\
    (N <> 0%Z -> exists msg, e = ValueError msg).
Proof.
  intros Hbad. unfold from_awkward.
  destruct (Z.eqb_spec N 0) as [->|HN].
  { eexists. split; [reflexivity|]. split; [eauto|done]. }
  set (L := Z.of_nat (length source)).
  set (s := ceil_div L N).
  assert (Hs : (s <= 0)%Z).
  { destruct Hbad as [HN0| ->].
    - unfold s, ceil_div.
      assert (0 <= (- L) / N)%Z; [|lia].
      pose proof (Z.div_pos L (- N) ltac:(lia) ltac:(lia)) as Hdp.
      rewrite <- (Z.div_opp_opp L (- N)) in Hdp by lia.
      by rewrite Z.opp_involutive in Hdp.
    - unfold s, L. simpl. rewrite ceil_div_zero by done. lia. }
  unfold py_range. destruct (Z.eqb_spec s 0) as [Hs0|Hs0].
  { rewrite bind_lift_inl. eexists. split; [reflexivity|]. split; [done|eauto]. }
  rewrite bind_lift_inr. unfold range_len.
  destruct (Z.ltb_spec 0 s); [lia|].
  assert (Z.to_nat (ceil_div (0 - L) (- s)) = 0) as ->.
  { pose proof (ceil_div_bounds (0 - L) (- s) ltac:(lia)). unfold L in *. nia. }
  simpl seq. simpl map. rewrite app_nil_l.
  change (py_slice [L] 0 (-1)) with (@nil Z). change (drop 1 [L]) with (@nil Z).
  change (VInt <$> []) with (@nil PyVal).
  destruct (from_map_pair_empty (FromAwkwardFn source) []
              (Some (str_or label "from-awkward"))
              (Some (TokenizeAwkward source N)) (Some (Some <$> [L]))
              (Some (TypetracerOfRows source)) g) as [msg Hmsg].
  rewrite Hmsg. eexists. split; [reflexivity|]. split; [done|eauto].
Qed.

Lemma from_awkward_rejects_witness :
  exists msg,
    from_awkward (VInt <$> [1; 2; 3]%Z) (-2) None [] = (inl (ValueError msg), []).
Proof.
  destruct (from_awkward_rejects (VInt <$> [1; 2; 3]%Z) (-2) None [])
    as (e & He & _ & Hv); [left; lia|].
  destruct (Hv ltac:(lia)) as [msg ->]. exists msg. exact He.
Defined.

(** ** [to_dask_array]: when it returns, and its graph *)

Lemma leaf_primitive_inr c p : leaf_primitive c = inr p -> numeric_leaf c p.
Proof.
  induction c as [q|c IH|c IH n|c IH|fs]; simpl; intros H.
  - inversion H; subst. constructor.
  - constructor. by apply IH.
  - constructor. by apply IH.
  - constructor. by apply IH.
  - done.
Qed.

Lemma leaf_primitive_inl c e :
  leaf_primitive c = inl e -> exists msg, e = AttributeError msg.
Proof.
  induction c as [q|c IH|c IH n|c IH|fs]; simpl; intros H; try done; auto.
  inversion H; eauto.
Qed.

(** X7.  [to_dask_array] returns exactly when the collection has a
    representative value whose type descends to a numeric leaf, that leaf
    being the type itself if and only if the collection is
    one-dimensional; the dtype is then that of the leaf.  Without a
    representative value it raises [ValueError]; with one of any other
    type it raises [AttributeError]. *)
Theorem to_dask_array_returns_iff array :
  match to_dask_array array with
  | inr da =>
      exists ty, attr_meta array = Some ty /\ numeric_leaf ty (dtype da) /\
                 (ndim array = 1 <-> exists q, ty = NumpyType q)
  | inl e =>
      (attr_meta array = None /\ exists msg, e = ValueError msg) \/
      (exists ty, attr_meta array = Some ty /\ (exists msg, e = AttributeError msg) /\
         ~ exists p, numeric_leaf ty p /\
                     (ndim array = 1 <-> exists q, ty = NumpyType q))
  end.
Proof.
  unfold to_dask_array. destruct (attr_meta array) as [ty|]; [|left; eauto].
  destruct (Nat.eqb_spec (ndim array) 1) as [H1|H1].
  - destruct ty as [q|c|c n|c|fs]; simpl.
    + exists (NumpyType q). repeat split; [constructor|by eexists|done].
    + right. eexists. repeat split; [eauto|].
      intros (p & _ & Hd). by destruct (proj1 Hd H1).
    + right. eexists. repeat split; [eauto|].
      intros (p & _ & Hd). by destruct (proj1 Hd H1).
    + right. eexists. repeat split; [eauto|].
      intros (p & _ & Hd). by destruct (proj1 Hd H1).
    + right. eexists. repeat split; [eauto|].
      intros (p & _ & Hd). by destruct (proj1 Hd H1).
  - destruct ty as [q|c|c n|c|fs]; simpl.
    + right. eexists. repeat split; [eauto|].
      intros (p & _ & Hd). apply H1, Hd. by eexists.
    + destruct (leaf_primitive c) as [e|p] eqn:E; simpl.
      * right. eexists. split; [done|]. split; [by eapply leaf_primitive_inl|].
        intros (p & Hp & _).
        inversion Hp as [p'|c' p' Hc|c' n' p' Hc|c' p' Hc]; subst.
        by rewrite (leaf_primitive_numeric _ _ Hc) in E.
      * eexists. split; [done|]. split; [constructor; by apply leaf_primitive_inr|].
        split; [done|]. by intros [q Hq].
    + destruct (leaf_primitive c) as [e|p] eqn:E; simpl.
      * right. eexists. split; [done|]. split; [by eapply leaf_primitive_inl|].
        intros (p & Hp & _).
        inversion Hp as [p'|c' p' Hc|c' n' p' Hc|c' p' Hc]; subst.
        by rewrite (leaf_primitive_numeric _ _ Hc) in E.
      * eexists. split; [done|]. split; [constructor; by apply leaf_primitive_inr|].
        split; [done|]. by intros [q Hq].
    + destruct (leaf_primitive c) as [e|p] eqn:E; simpl.
      * right. eexists. split; [done|]. split; [by eapply leaf_primitive_inl|].
        intros (p & Hp & _).
        inversion Hp as [p'|c' p' Hc|c' n' p' Hc|c' p' Hc]; subst.
        by rewrite (leaf_primitive_numeric _ _ Hc) in E.
      * eexists. split; [done|]. split; [constructor; by apply leaf_primitive_inr|].
        split; [done|]. by intros [q Hq].
    + right. eexists. repeat split; [eauto|].
      intros (p & Hp & _). inversion Hp.
Qed.

(** X8.  For a collection that is not one-dimensional, the graph
    [to_dask_array] returns has one task per key of the collection: task
    [i] converts key [i] and is stored under the index [i] followed by one
    zero per inner axis, so its index has one entry per axis of the
    chunks, and no two tasks share an index. *)
Theorem to_dask_array_tasks array da :
  to_dask_array array = inr da -> ndim array <> 1 ->
  exists tasks,
    da_graph da = LowLevelGraph (attr_name array) tasks /\
    length tasks = length (dask_keys array) /\
    (forall i k, dask_keys array !! i = Some k ->
       tasks !! i = Some ((i, replicate (ndim array - 1) 0%Z), ("to_numpy", k))) /\
    (forall i t, tasks !! i = Some t ->
       S (length t.1.2) = length (chunks da)) /\
    NoDup (tasks.*1).
Proof.
  intros H Hd. unfold to_dask_array in H.
  destruct (attr_meta array) as [ty|]; [|done].
  destruct (Nat.eqb_spec (ndim array) 1) as [|_]; [done|].
  assert (exists p,
    da = {| da_graph := LowLevelGraph (attr_name array)
              (imap (fun i k => ((i, replicate (ndim array - 1) 0%Z), ("to_numpy", k)))
                    (dask_keys array));
            chunks := replicate (npartitions array) NaN
                      :: replicate (ndim array - 1) [NaN];
            dtype := p |}) as [p ->].
  { destruct ty as [q|c|c n|c|fs]; try done;
      destruct (leaf_primitive c) as [e|p]; try done;
      inversion H; by eexists. }
  eexists. split; [reflexivity|]. cbn [chunks]. split; [by rewrite length_imap|].
  split; [|split].
  - intros i k Hk. by rewrite list_lookup_imap, Hk.
  - intros i t Ht. rewrite list_lookup_imap in Ht.
    destruct (dask_keys array !! i); [|done]. inversion Ht; subst. simpl.
    by rewrite !length_replicate.
  - apply NoDup_alt. intros i j x Hi Hj.
    rewrite list_lookup_fmap, list_lookup_imap in Hi, Hj.
    destruct (dask_keys array !! i); [|done].
    destruct (dask_keys array !! j); [|done].
    simpl in Hi, Hj. inversion Hi; subst. by inversion Hj.
Qed.

Lemma to_dask_array_tasks_witness :
  exists da tasks,
    to_dask_array keyed_matrix_attrs = inr da /\
    da_graph da = LowLevelGraph (attr_name keyed_matrix_attrs) tasks /\
    tasks.*1 = [(0, [0%Z]); (1, [0%Z])].
Proof.
  destruct (to_dask_array keyed_matrix_attrs) as [e|da] eqn:E;
    [by vm_compute in E|].
  destruct (to_dask_array_tasks keyed_matrix_attrs da E) as (tasks & Hg & _);
    [by vm_compute|].
  exists da, tasks. split; [done|]. split; [done|].
  vm_compute in E. inversion E; subst da. simpl in Hg. inversion Hg; subst tasks.
  reflexivity.
Defined.

(** ** [from_dask_array] *)

Lemma existsb_nan_false chunks :
  existsb chunk_is_nan chunks = false <-> Forall (fun c => exists n, c = Size n) chunks.
Proof.
  induction chunks as [|c chunks IH]; simpl.
  - split; [constructor|done].
  - destruct c as [|n]; simpl.
    + split; [done|]. intros H. inversion H as [|? ? [n Hn] _]. done.
    + rewrite IH. split; [intros H; constructor; eauto|].
      intros H. by inversion H.
Qed.

(** X9.  The collection [from_dask_array] builds always has one division
    more than the array has chunks.  When every chunk size is known the
    divisions are known: entry [i] is the sum of the first [i] chunk
    sizes and the last is the total.  When some chunk size is NaN every
    division is unknown. *)
Theorem from_dask_array_divisions hlg token meta chunks :
  let a := from_dask_array hlg token meta chunks in
  length (divisions a) = length chunks + 1 /\
  (Forall (fun c => exists n, c = Size n) chunks ->
     known_divisions a = true /\
     (forall i, i <= length chunks ->
        divisions a !! i = Some (Some (sum_Z (take i (chunk_extent <$> chunks))))) /\
     last (divisions a) = Some (Some (sum_Z (chunk_extent <$> chunks)))) /\
  (Exists (fun c => c = NaN) chunks ->
     divisions a = replicate (length chunks + 1) None /\
     known_divisions a = false).
Proof.
  intros a. unfold a, from_dask_array.
  destruct (existsb chunk_is_nan chunks) eqn:E;
    unfold new_array_object; cbn [divisions].
  - split; [by rewrite length_replicate|]. split.
    + intros Hall. apply existsb_nan_false in Hall. congruence.
    + intros _. split; [done|]. unfold known_divisions. cbn [divisions].
      replace (length chunks + 1) with (S (length chunks)) by lia. done.
  - assert (Hlen : length (Some <$> 0%Z :: accumulate (chunk_extent <$> chunks))
                   = length chunks + 1).
    { rewrite length_fmap. simpl. unfold accumulate.
      rewrite accumulate_from_length, length_fmap. lia. }
    split; [done|]. split.
    + intros _.
      assert (Hlk : forall i, i <= length chunks ->
                (Some <$> 0%Z :: accumulate (chunk_extent <$> chunks)) !! i
                = Some (Some (sum_Z (take i (chunk_extent <$> chunks))))).
      { intros i Hi. rewrite list_lookup_fmap, divisions_lookup; [done|].
        by rewrite length_fmap. }
      split; [|split; [done|]].
      * unfold known_divisions. cbn [divisions]. apply forallb_forall.
        intros d Hd. apply in_map_iff in Hd as (z & <- & _). done.
      * rewrite last_lookup, Hlen. replace (pred (length chunks + 1))
          with (length chunks) by lia.
        rewrite Hlk by lia. rewrite take_ge; [done|]. by rewrite length_fmap.
    + intros Hex. exfalso. apply existsb_nan_false in E.
      apply Exists_exists in Hex as (c & Hc & ->).
      rewrite Forall_forall in E. destruct (E NaN) as [n Hn]; [|done].
      exact Hc.
Qed.

(** X10.  A one-dimensional collection with at least one partition,
    turned into a dask array and back, has as many divisions as before
    and all of them unknown. *)
Theorem to_dask_array_and_back array da :
  to_dask_array array = inr da -> ndim array = 1 -> 1 <= npartitions array ->
  exists sizes,
    chunks da = [sizes] /\ length sizes = npartitions array /\
    forall hlg token meta,
      divisions (from_dask_array hlg token meta sizes)
        = replicate (npartitions array + 1) None /\
      known_divisions (from_dask_array hlg token meta sizes) = false.
Proof.
  intros H H1 Hn. unfold to_dask_array in H.
  destruct (attr_meta array) as [ty|]; [|done].
  rewrite H1 in H. simpl in H.
  destruct ty as [q|c|c n|c|fs]; try done. inversion H; subst da. cbn [chunks].
  exists (replicate (npartitions array) NaN).
  split; [done|]. split; [by rewrite length_replicate|].
  intros hlg token meta.
  unfold from_dask_array.
  destruct (npartitions array) as [|n] eqn:En; [lia|].
  cbn [replicate existsb chunk_is_nan orb length].
  unfold new_array_object, known_divisions; cbn [divisions].
  rewrite length_replicate.
  replace (S n + 1) with (S (S n)) by lia. done.
Qed.

Lemma to_dask_array_and_back_witness :
  exists da sizes,
    to_dask_array vector_attrs = inr da /\
    chunks da = [sizes] /\
    divisions (from_dask_array (DelayedLayer (attr_name vector_attrs) [] [])
                 "t" None sizes)
      = [None; None; None; None].
Proof.
  destruct (to_dask_array vector_attrs) as [e|da] eqn:E; [by vm_compute in E|].
  destruct (to_dask_array_and_back vector_attrs da E) as (sizes & Hc & _ & Hd);
    [reflexivity | vm_compute; lia |].
  exists da, sizes. split; [done|]. split; [done|].
  by destruct (Hd (DelayedLayer (attr_name vector_attrs) [] []) "t" None)
    as [-> _].
Defined.

(** ** [from_parquet]: what the partitions read *)

Lemma from_parquet_file_wise_branch tok im sf cols filt split r g :
  granularity split r = FileWise ->
  from_parquet tok im sf cols filt split r g =
    from_map (FromParquetFileWiseFn cols (subform r))
             [Sized (VStr <$> actual_paths r)] None (Some "read-parquet")
             (Some (TokenizeParquet tok im cols filt sf split)) None
             (Some (TypetracerOfForm (subform r))) ∅ g.
Proof. intros Hg. unfold from_parquet. by rewrite Hg. Qed.

(** X11.  When [from_parquet] partitions by file, it raises [ValueError]
    and builds no layer if the reader found no file; otherwise it
    returns a collection with one partition per file, in file order,
    whose divisions are all unknown, and partition [i] asks the loader
    for the whole of file [i] (the subset [[None]]), with the columns
    the caller named and the form the reader reported. *)
Theorem from_parquet_file_wise tok im sf cols filt split r g :
  granularity split r = FileWise ->
  (actual_paths r = [] ->
     exists msg,
       from_parquet tok im sf cols filt split r g = (inl (ValueError msg), g)) /\
  (actual_paths r <> [] ->
     exists a,
       from_parquet tok im sf cols filt split r g = (inr a, g ++ [dask a]) /\
       num_partitions a = length (actual_paths r) /\
       divisions a = replicate (length (actual_paths r) + 1) None /\
       forall i p, actual_paths r !! i = Some p ->
         partition_request a i =
           Some (inr {| load_actual_paths := [VStr p];
                        load_parquet_columns := cols;
                        load_subrg := VList [VNone];
                        load_footer_sample_size := 32768;
                        load_max_gap := 1024;
                        load_max_block := 4194304;
                        load_generate_bitmasks := false;
                        load_highlevel := true;
                        load_subform := subform r |})).
Proof.
  intros Hg. rewrite (from_parquet_file_wise_branch _ _ _ _ _ _ _ _ Hg). split.
  - intros ->. apply from_map_single_empty.
  - intros Hne. rewrite from_map_single; [|done|by destruct (actual_paths r)].
    take_result. unfold num_partitions, partition_request, new_array_object.
    cbn [dask divisions]. rewrite !length_fmap. split; [done|]. split; [done|].
    intros i p Hp. by rewrite list_lookup_fmap, Hp.
Qed.

Lemma from_parquet_file_wise_witness :
  exists a,
    from_parquet "fs" true false (Some ["x"]) VNone (Some false)
                 two_files_result []
      = (inr a, [] ++ [dask a]) /\
    num_partitions a = 2 /\
    divisions a = [None; None; None] /\
    partition_request a 1
      = Some (inr (file_to_partition (VStr "data/b.parquet") (Some ["x"])
                                     "x: int64" VNone)).
Proof.
  destruct (from_parquet_file_wise "fs" true false (Some ["x"]) VNone (Some false)
              two_files_result []) as [_ H]; [reflexivity|].
  destruct H as (a & Ha & Hn & Hd & Hreq); [done|].
  exists a. split; [exact Ha|]. split; [exact Hn|]. split; [exact Hd|].
  by rewrite (Hreq 1 "data/b.parquet").
Defined.

Lemma build_pairs_paths sub paths pairs :
  build_pairs sub paths = inr pairs -> Forall (fun x => x.2 ∈ paths) pairs.
Proof.
  revert paths pairs. induction sub as [|s sub IH]; intros [|p paths] pairs H;
    simpl in H; try (inversion H; subst; constructor).
  destruct s as [|rgs|rgs]; [done|..];
    (destruct (build_pairs sub paths) as [e|ps] eqn:E; [done|];
     inversion H; subst; apply Forall_app; split;
     [apply Forall_forall; intros x Hx; apply list_elem_of_fmap in Hx as (rg & -> & _);
      simpl; left
     |eapply Forall_impl; [by apply IH|]; intros x Hx; simpl in Hx; by right]).
Qed.

(** X12.  When [from_parquet] partitions by row group and returns a
    collection, the collection has at least one partition and every
    partition asks the loader for exactly one row group of exactly one of
    the files the reader listed: the subset it passes is [[[rg]]]. *)
Theorem from_parquet_row_group_requests tok im sf cols filt split r g a g' :
  granularity split r = RowGroupWise ->
  from_parquet tok im sf cols filt split r g = (inr a, g') ->
  1 <= num_partitions a /\
  forall i, i < num_partitions a ->
    exists rg p,
      p ∈ actual_paths r /\
      partition_request a i =
        Some (inr {| load_actual_paths := [VStr p];
                     load_parquet_columns := cols;
                     load_subrg := VList [VList [VInt rg]];
                     load_footer_sample_size := 32768;
                     load_max_gap := 1024;
                     load_max_block := 4194304;
                     load_generate_bitmasks := false;
                     load_highlevel := true;
                     load_subform := subform r |}).
Proof.
  intros Hg Hret.
  apply from_parquet_row_group_returns in Hret
    as (sub & sub' & pairs & _ & _ & Hpairs & Hne & _ & (nm & meta & Hl) & _);
    [|done].
  unfold num_partitions, partition_request. rewrite Hl, length_fmap. split.
  - destruct pairs; [done|simpl; lia].
  - intros i Hi. destruct (lookup_lt_is_Some_2 pairs i Hi) as [[rg p] Hp].
    exists rg, p. split.
    + apply build_pairs_paths in Hpairs. rewrite Forall_forall in Hpairs.
      apply (Hpairs (rg, p)). by eapply list_elem_of_lookup_2.
    + by rewrite list_lookup_fmap, Hp.
Qed.

Lemma from_parquet_row_group_requests_witness :
  exists a g',
    from_parquet "fs" false false None VNone None two_files_result []
      = (inr a, g') /\
    1 <= num_partitions a.
Proof.
  destruct (from_parquet "fs" false false None VNone None two_files_result [])
    as [[e|a] g'] eqn:E; [by vm_compute in E|].
  exists a, g'. split; [done|].
  by destruct (from_parquet_row_group_requests "fs" false false None VNone None
                 two_files_result [] a g' eq_refl E) as [H _].
Defined.

Lemma build_pairs_empty_lists (paths : list string) :
  build_pairs (map (fun _ => SubList []) paths) paths = inr [].
Proof. induction paths as [|p paths IH]; simpl; [done|]. by rewrite IH. Qed.

(** X13.  When the reader reports no per-file subsets and the metadata
    holds at most one row group, partitioning by row group never yields
    a collection and builds no layer: with no row group the loop variable
    is unbound ([NameError]); with one row group whose file path occurs
    in no listed path the lookup fails ([IndexError]); and otherwise
    every file is given the empty range of row groups, so that [from_map]
    is handed no input ([ValueError]). *)
Theorem from_parquet_fallback_few_row_groups tok im sf cols filt split r sub g :
  granularity split r = RowGroupWise ->
  subrg r = Some sub -> sub <> [] -> Forall (fun s => s = SubNone) sub ->
  actual_paths r <> [] ->
  length (metadata r) <= 1 ->
  exists e,
    from_parquet tok im sf cols filt split r g = (inl e, g) /\
    (metadata r = [] -> e = NameError "i") /\
    (forall rg, metadata r = [rg] ->
       match first_containing (dict_keys [] (actual_paths r)) (file_path rg) with
       | None => exists msg, e = IndexError msg
       | Some _ => exists msg, e = ValueError msg
       end).
Proof.
  intros Hg Hsub Hne Hall Hpaths Hmd. unfold from_parquet.
  rewrite Hg, Hsub. unfold planned_subrg.
  rewrite subrg_is_all_none_true by done. unfold fill_subrg.
  destruct (metadata r) as [|rg [|rg' md]] eqn:Emd; [| |simpl in Hmd; lia].
  - simpl. rewrite bind_lift_inl. eexists. split; [done|]. split; done.
  - simpl. unfold tally_step.
    destruct (first_containing (dict_keys [] (actual_paths r)) (file_path rg))
      as [p|] eqn:Efc.
    + rewrite bind_lift_inr.
      change (py_range1 (Z.of_nat (length [rg]) - 1)) with (@nil Z).
      rewrite build_pairs_empty_lists, bind_lift_inr.
      change (pair_val <$> []) with (@nil PyVal).
      match goal with
      | |- context [from_map ?f _ _ ?l ?t ?d ?m _ ?g0] =>
          destruct (from_map_single_empty f l t d m g0) as [msg Hmsg]
      end.
      cbv zeta. rewrite Hmsg. eexists. split; [done|]. split; [done|].
      intros rg0 E0. inversion E0; subst. rewrite Efc. by eexists.
    + rewrite bind_lift_inl. eexists. split; [done|]. split; [done|].
      intros rg0 E0. inversion E0; subst. rewrite Efc. by eexists.
Qed.

Lemma from_parquet_fallback_few_row_groups_witness :
  exists msg,
    from_parquet "fs" true false None VNone (Some true)
                 single_row_group_result []
      = (inl (ValueError msg), []).
Proof.
  destruct (from_parquet_fallback_few_row_groups "fs" true false None VNone
              (Some true) single_row_group_result [SubNone] [])
    as (e & He & _ & Hone);
    [reflexivity | reflexivity | done | by repeat constructor | done
    | simpl; lia |].
  destruct (Hone _ eq_refl) as [msg ->]. by exists msg.
Defined.

(** ** The dataset-level metadata file *)

Lemma write_metadata_some fs out_path m :
  write_metadata fs out_path (Some m)
  = inr (<[ out_path +:+ "/" +:+ "_metadata" := m ]> fs).
Proof. unfold write_metadata. by rewrite insert_insert_eq. Qed.

Lemma collect_footers_ok fs root paths footers meta :
  Forall2 (fun p f => String.prefix root p = true /\ fs !! p = Some f)
          paths footers ->
  collect_footers fs root paths meta =
    inr (match paths with
         | [] => meta
         | _ :: _ =>
             Some (default [] meta ++
                   aggregate_metadata
                     (zip (string_drop (String.length root + 1) <$> paths)
                          footers))
         end).
Proof.
  intros H. revert meta.
  induction H as [|p f paths footers [Hp Hf] H IH]; intros meta; [done|].
  cbn [collect_footers]. rewrite Hp, Hf. cbn [negb]. rewrite IH.
  f_equal. unfold aggregate_metadata.
  destruct paths as [|p' paths]; inversion H; subst;
    destruct meta as [m|]; simpl; rewrite ?app_nil_r, ?app_assoc; done.
Qed.

Lemma collect_footers_inr fs root paths meta meta' :
  collect_footers fs root paths meta = inr meta' ->
  Forall (fun p => String.prefix root p = true /\ is_Some (fs !! p)) paths /\
  (meta' = None -> paths = [] /\ meta = None).
Proof.
  revert meta. induction paths as [|p paths IH]; intros meta H.
  - simpl in H. inversion H; subst. split; [constructor|done].
  - cbn [collect_footers] in H.
    destruct (String.prefix root p) eqn:Hp; [|done]. cbn [negb] in H.
    destruct (fs !! p) as [f|] eqn:Hf; [|done].
    apply IH in H as [Hall Hnone]. split.
    + constructor; [by split|done].
    + intros ->. by destruct (Hnone eq_refl) as [_ ?].
Qed.

Lemma metadata_file_from_data_files_ok path_list footers fs out_path :
  let root := rstrip_slash out_path in
  path_list <> [] ->
  Forall2 (fun p f => String.prefix root p = true /\ fs !! p = Some f)
          path_list footers ->
  metadata_file_from_data_files path_list fs out_path =
    inr (<[ root +:+ "/" +:+ "_metadata" :=
              aggregate_metadata
                (zip (string_drop (String.length root + 1) <$> path_list)
                     footers) ]> fs).
Proof.
  intros root Hne H. unfold metadata_file_from_data_files. fold root.
  rewrite (collect_footers_ok _ _ _ footers) by done.
  destruct path_list as [|p ps]; [done|].
  by rewrite write_metadata_some.
Qed.

(** X14.  Given a non-empty list of data files that all lie under the
    root (stripped of trailing slashes) and exist,
    [_metadata_file_from_data_files] writes [<root>/_metadata] and
    nothing else.  The file holds the row groups of the data files, file
    after file in list order and within a file in footer order; each row
    group carries the path of its file relative to the root, and the row
    counts are those of the footers. *)
Theorem metadata_file_from_data_files_writes path_list footers fs out_path :
  let root := rstrip_slash out_path in
  let rel := string_drop (String.length root + 1) in
  path_list <> [] ->
  Forall2 (fun p f => String.prefix root p = true /\ fs !! p = Some f)
          path_list footers ->
  exists fs' written,
    metadata_file_from_data_files path_list fs out_path = inr fs' /\
    fs' !! (root +:+ "/" +:+ "_metadata") = Some written /\
    (forall p, p <> root +:+ "/" +:+ "_metadata" -> fs' !! p = fs !! p) /\
    written = concat (zip_with set_file_path (rel <$> path_list) footers) /\
    num_rows <$> written
      = concat ((fun f : list RowGroupMeta => num_rows <$> f) <$> footers).
Proof.
  intros root rel Hne H.
  rewrite (metadata_file_from_data_files_ok _ footers) by done.
  fold root. fold rel.
  eexists _, _. split; [reflexivity|].
  split; [by rewrite lookup_insert_eq|].
  split; [intros q Hq; by rewrite lookup_insert_ne|].
  assert (Hlen : length (rel <$> path_list) = length footers).
  { rewrite length_fmap. by eapply Forall2_length. }
  generalize dependent (rel <$> path_list). clear.
  intros rels Hlen. unfold aggregate_metadata.
  revert footers Hlen. induction rels as [|x rels IH]; intros [|f footers] Hlen;
    try done.
  simpl in Hlen. destruct (IH footers ltac:(lia)) as [IH1 IH2].
  split.
  - simpl. by rewrite IH1.
  - simpl. simpl in IH2. rewrite fmap_app, IH2. f_equal.
    unfold set_file_path. rewrite <- list_fmap_compose. done.
Qed.

Lemma metadata_file_from_data_files_writes_witness :
  let fs : gmap string (list RowGroupMeta) :=
    {[ "data/a.parquet" := [{| file_path := ""; num_rows := 3 |};
                            {| file_path := ""; num_rows := 4 |}];
       "data/b.parquet" := [{| file_path := ""; num_rows := 5 |}] ]} in
  exists fs',
    metadata_file_from_data_files ["data/a.parquet"; "data/b.parquet"] fs "data//"
      = inr fs' /\
    fs' !! "data/_metadata"
      = Some [{| file_path := "a.parquet"; num_rows := 3 |};
              {| file_path := "a.parquet"; num_rows := 4 |};
              {| file_path := "b.parquet"; num_rows := 5 |}].
Proof.
  intros fs.
  destruct (metadata_file_from_data_files_writes
              ["data/a.parquet"; "data/b.parquet"]
              [[{| file_path := ""; num_rows := 3 |};
                {| file_path := ""; num_rows := 4 |}];
               [{| file_path := ""; num_rows := 5 |}]] fs "data//")
    as (fs' & written & Hret & Hlk & _ & Hw & _);
    [done | by repeat constructor |].
  exists fs'. split; [exact Hret|].
  change (rstrip_slash "data//" +:+ "/" +:+ "_metadata")
    with "data/_metadata" in Hlk.
  rewrite Hlk, Hw. reflexivity.
Defined.

(** X15.  [_metadata_file_from_data_files] returns exactly when the list
    of data files is not empty and every file lies under the stripped
    root and exists.  On an empty list it raises [AttributeError]: the
    metadata it hands to the writer is still [None]. *)
Theorem metadata_file_from_data_files_returns_iff path_list fs out_path :
  let root := rstrip_slash out_path in
  ((exists fs', metadata_file_from_data_files path_list fs out_path = inr fs') <->
   path_list <> [] /\
   Forall (fun p => String.prefix root p = true /\ is_Some (fs !! p)) path_list) /\
  (path_list = [] ->
   exists msg, metadata_file_from_data_files path_list fs out_path
               = inl (Builtin (AttributeError msg))).
Proof.
  intros root. split; [split|].
  - intros [fs' H]. unfold metadata_file_from_data_files in H. fold root in H.
    destruct (collect_footers fs root path_list None) as [e|meta] eqn:E; [done|].
    destruct (collect_footers_inr _ _ _ _ _ E) as [Hall _]. split; [|done].
    intros ->. simpl in E. inversion E; subst. done.
  - intros [Hne Hall].
    assert (exists footers,
      Forall2 (fun p f => String.prefix root p = true /\ fs !! p = Some f)
              path_list footers) as [footers HF].
    { clear Hne. induction Hall as [|p ps [Hp [f Hf]] _ [footers IH]].
      - exists []. constructor.
      - exists (f :: footers). by constructor. }
    rewrite (metadata_file_from_data_files_ok _ footers) by done. by eexists.
  - intros ->. by eexists.
Qed.

Lemma rstrip_slash_app_slash s : rstrip_slash (s +:+ "/") = rstrip_slash s.
Proof.
  induction s as [|c s IH]; [done|].
  change (String c s +:+ "/") with (String c (s +:+ "/")).
  cbn [rstrip_slash]. by rewrite IH.
Qed.

(** X16.  The root of the dataset may be given with or without a
    trailing slash: [_metadata_file_from_data_files] does the same in
    both cases. *)
Theorem metadata_file_root_trailing_slash path_list fs out_path :
  metadata_file_from_data_files path_list fs (out_path +:+ "/")
  = metadata_file_from_data_files path_list fs out_path.
Proof.
  unfold metadata_file_from_data_files. by rewrite rstrip_slash_app_slash.
Qed.

Lemma append_all_objs m ms :
  append_all m (MetaObj <$> ms) = inr (m ++ concat ms).
Proof.
  revert m. induction ms as [|m' ms IH]; intros m; simpl.
  - by rewrite app_nil_r.
  - rewrite IH. by rewrite app_assoc.
Qed.

(** X17.  Handed the metadata objects of one or more files,
    [_metadata_file_from_metas] writes their row groups, in argument
    order, to [<out_path>/_metadata] and touches no other file; handed
    no object it raises [IndexError]. *)
Theorem metadata_file_from_metas_writes fs out_path metas :
  match metas with
  | [] =>
      exists msg, metadata_file_from_metas fs out_path (MetaObj <$> metas)
                  = inl (Builtin (IndexError msg))
  | _ :: _ =>
      exists fs',
        metadata_file_from_metas fs out_path (MetaObj <$> metas) = inr fs' /\
        fs' !! (out_path +:+ "/" +:+ "_metadata") = Some (concat metas) /\
        forall p, p <> out_path +:+ "/" +:+ "_metadata" -> fs' !! p = fs !! p
  end.
Proof.
  destruct metas as [|m ms]; [by eexists|].
  cbn [fmap list_fmap metadata_file_from_metas].
  change (list_fmap _ _ MetaObj ms) with (MetaObj <$> ms).
  rewrite append_all_objs, write_metadata_some.
  eexists. split; [reflexivity|]. split; [by rewrite lookup_insert_eq|].
  intros p Hp. by rewrite lookup_insert_ne.
Qed.

(** X18.  The closing task of [to_parquet].  Asked to write the
    dataset-level metadata, it always fails: every partition's writer
    returns an empty list, which is no metadata object, so the task
    raises [AttributeError] (and with no partition at all the writer
    cannot even be built: [ValueError]).  Not asked to, it leaves the
    files as the writers left them. *)
Theorem to_parquet_closing_task_outcome path written schema fs :
  (exists e,
     to_parquet_closing_task true path written schema fs = inl (Builtin e) /\
     match written with
     | [] => exists msg, e = ValueError msg
     | _ :: _ => exists msg, e = AttributeError msg
     end) /\
  match written with
  | [] => exists msg, to_parquet_closing_task false path written schema fs
                      = inl (Builtin (ValueError msg))
  | _ :: _ => to_parquet_closing_task false path written schema fs = inr fs
  end.
Proof.
  unfold to_parquet_closing_task, ToParquetFn_init.
  destruct (Z.leb_spec (Z.of_nat (length written)) 0) as [Hle|Hgt].
  - destruct written as [|w ws]; [|simpl in Hle; lia].
    split; [eexists; split; [done|]|]; by eexists.
  - destruct written as [|w [|w' ws]]; [simpl in Hgt; lia|..];
      (split; [eexists; split; [done|by eexists]|done]).
Qed.

(** ** [to_parquet]: the files written *)

Lemma string_app_inj_r s1 s2 t : s1 +:+ t = s2 +:+ t -> s1 = s2.
Proof.
  intros H. eapply string_app_inj_length; [|exact H].
  apply (f_equal String.length) in H. rewrite !string_length_append in H. lia.
Qed.

Lemma part_filename_inj fn i j : part_filename fn i = part_filename fn j -> i = j.
Proof.
  unfold part_filename. intros H. apply (inj (String.app _)) in H.
  apply string_app_inj_r in H. by apply part_number_inj in H.
Qed.

Lemma foldl_insert_frame {A} (name : nat -> string) (l : list A)
    (files : gmap string A) p :
  (forall k, k < length l -> p <> name k) ->
  foldl (fun fs (kd : nat * A) => <[ name kd.1 := kd.2 ]> fs) files
        (imap (fun k d => (k, d)) l) !! p = files !! p.
Proof.
  induction l as [|x l IH] using rev_ind; intros Hp; [done|].
  rewrite imap_app, foldl_app. simpl. rewrite Nat.add_0_r.
  rewrite length_app in Hp. simpl in Hp.
  rewrite lookup_insert_ne; [|intros Heq; by apply (Hp (length l)); [lia|]].
  apply IH. intros k Hk. apply Hp. lia.
Qed.

Lemma to_parquet_frame sep partitions path files fn files' p :
  ToParquetFn_init path false (Some (Z.of_nat (length partitions))) = inr fn ->
  to_parquet sep partitions path files = inr files' ->
  (forall k, k < length partitions -> p <> path +:+ sep +:+ part_filename fn k) ->
  files' !! p = files !! p.
Proof.
  intros Hfn Hret Hp. unfold to_parquet in Hret. rewrite Hfn in Hret.
  inversion Hret; subst files'. unfold ToParquetFn_call, write_partition.
  apply (foldl_insert_frame
           (fun k => tp_path fn +:+ sep +:+ part_filename fn k)).
  intros k Hk. unfold ToParquetFn_init in Hfn.
  destruct (Z.of_nat (length partitions) <=? 0)%Z; [done|].
  inversion Hfn; subst fn. cbn [tp_path]. by apply Hp.
Qed.

(** X19.  [to_parquet], computing at once and not asked for the
    dataset-level metadata, raises [ValueError] on a collection without
    partitions.  Otherwise it returns, every partition is afterwards
    found under its own file name below the root, different partitions
    have different file names, and every other path holds what it held
    before. *)
Theorem to_parquet_writes sep partitions path files :
  match partitions with
  | [] => exists msg, to_parquet sep partitions path files = inl (ValueError msg)
  | _ :: _ =>
      exists fn files',
        ToParquetFn_init path false (Some (Z.of_nat (length partitions))) = inr fn /\
        to_parquet sep partitions path files = inr files' /\
        (forall k d, partitions !! k = Some d ->
           files' !! (path +:+ sep +:+ part_filename fn k) = Some d) /\
        (forall i j, part_filename fn i = part_filename fn j -> i = j) /\
        (forall p,
           (forall k, k < length partitions ->
              p <> path +:+ sep +:+ part_filename fn k) ->
           files' !! p = files !! p)
  end.
Proof.
  destruct partitions as [|d0 ds]; [by eexists|].
  destruct (to_parquet_files sep (d0 :: ds) path files) as (fn & files' & Hfn & Hret & Hlk);
    [done|].
  exists fn, files'. split; [done|]. split; [done|]. split; [done|].
  split; [apply part_filename_inj|].
  intros p Hp. by apply (to_parquet_frame sep (d0 :: ds) path files fn).
Qed.

(** ** The order of the file names *)

Lemma digit_char_code d : d < 10 -> nat_of_ascii (digit_char d) = 48 + d.
Proof. intros Hd. do 10 (destruct d as [|d]; [reflexivity|]). lia. Qed.

Lemma all_digits_app s1 s2 :
  all_digits (s1 +:+ s2) = all_digits s1 && all_digits s2.
Proof.
  induction s1 as [|c s1 IH]; [done|].
  change (String c s1 +:+ s2) with (String c (s1 +:+ s2)).
  cbn [all_digits]. rewrite IH. by rewrite andb_assoc.
Qed.

Lemma all_digits_zeros n : all_digits (zeros n) = true.
Proof. induction n as [|n IH]; [done|]. cbn [zeros all_digits]. by rewrite IH. Qed.

Lemma all_digits_numeral fuel n acc :
  all_digits acc = true -> all_digits (str_digits fuel n acc) = true.
Proof.
  revert n acc. induction fuel as [|fuel IH]; intros n acc Hacc; [done|].
  cbn [str_digits].
  assert (Hd : all_digits (String (digit_char (n mod 10)) acc) = true).
  { cbn [all_digits]. rewrite digit_char_code by (apply Nat.mod_upper_bound; lia).
    rewrite Hacc, andb_true_r. apply andb_true_intro.
    pose proof (Nat.mod_upper_bound n 10 ltac:(lia)).
    split; apply Nat.leb_le; lia. }
  destruct (Nat.ltb n 10); [done|]. by apply IH.
Qed.

Lemma all_digits_part_number fn k : all_digits (part_number fn k) = true.
Proof.
  unfold part_number. rewrite zfill_numeral, all_digits_app, all_digits_zeros.
  by apply all_digits_numeral.
Qed.

Lemma digits_value_mono s1 s2 a1 a2 :
  String.length s1 = String.length s2 ->
  all_digits s1 = true -> all_digits s2 = true ->
  a1 < a2 -> digits_value s1 a1 < digits_value s2 a2.
Proof.
  revert s2 a1 a2. induction s1 as [|c1 s1 IH]; intros [|c2 s2] a1 a2 Hl H1 H2 Ha;
    try done.
  cbn [all_digits] in H1, H2. cbn [digits_value].
  apply andb_true_iff in H1 as [H1 H1']. apply andb_true_iff in H1 as [L1 U1].
  apply andb_true_iff in H2 as [H2 H2']. apply andb_true_iff in H2 as [L2 U2].
  apply Nat.leb_le in L1, U1, L2, U2.
  apply IH; [simpl in Hl; lia|done|done|lia].
Qed.

(** Numerals of the same length compare as the numbers they denote. *)
Lemma digits_compare s1 s2 acc :
  String.length s1 = String.length s2 ->
  all_digits s1 = true -> all_digits s2 = true ->
  digits_value s1 acc < digits_value s2 acc ->
  String.compare s1 s2 = Lt.
Proof.
  revert s2 acc. induction s1 as [|c1 s1 IH]; intros [|c2 s2] acc Hl H1 H2 Hv;
    try done.
  { simpl in Hv. lia. }
  pose proof H1 as H1f. pose proof H2 as H2f.
  cbn [all_digits] in H1, H2. cbn [digits_value] in Hv.
  apply andb_true_iff in H1 as [H1 H1']. apply andb_true_iff in H1 as [L1 U1].
  apply andb_true_iff in H2 as [H2 H2']. apply andb_true_iff in H2 as [L2 U2].
  apply Nat.leb_le in L1, U1, L2, U2.
  assert (Hls : String.length s1 = String.length s2) by (simpl in Hl; lia).
  cbn [String.compare]. unfold Ascii.compare.
  rewrite N2Nat.inj_compare.
  change (N.to_nat (N_of_ascii c1)) with (nat_of_ascii c1).
  change (N.to_nat (N_of_ascii c2)) with (nat_of_ascii c2).
  destruct (Nat.compare_spec (nat_of_ascii c1) (nat_of_ascii c2)) as [E|Hlt|Hgt].
  - rewrite E in Hv. by eapply IH.
  - done.
  - exfalso.
    pose proof (digits_value_mono s2 s1
                  (10 * acc + (nat_of_ascii c2 - 48))
                  (10 * acc + (nat_of_ascii c1 - 48))
                  (eq_sym Hls) H2' H1' ltac:(lia)).
    lia.
Qed.

Lemma string_compare_app_l p a b :
  String.compare (p +:+ a) (p +:+ b) = String.compare a b.
Proof.
  induction p as [|c p IH]; [done|].
  change (String c p +:+ a) with (String c (p +:+ a)).
  change (String c p +:+ b) with (String c (p +:+ b)).
  cbn [String.compare]. unfold Ascii.compare. by rewrite N.compare_refl.
Qed.

Lemma string_compare_app_r a b t :
  String.length a = String.length b ->
  String.compare a b = Lt -> String.compare (a +:+ t) (b +:+ t) = Lt.
Proof.
  revert b. induction a as [|c a IH]; intros [|c' b] Hl H; try done.
  change (String c a +:+ t) with (String c (a +:+ t)).
  change (String c' b +:+ t) with (String c' (b +:+ t)).
  cbn [String.compare] in H |- *.
  destruct (Ascii.compare c c'); [|done..].
  apply IH; [simpl in Hl; lia|done].
Qed.

(** X20.  The files of a collection of [N] partitions sort in partition
    order: for block indices [i < j < N] the path written for [i] is
    smaller than the path written for [j] in the character-wise order of
    strings, because the numerals of all the names have the same
    length. *)
Theorem part_filenames_sorted (path sep : string) (N i j : nat) fn :
  ToParquetFn_init path false (Some (Z.of_nat N)) = inr fn ->
  i < j -> j < N ->
  String.compare (path +:+ sep +:+ part_filename fn i)
                 (path +:+ sep +:+ part_filename fn j) = Lt.
Proof.
  intros Hfn Hij Hj. unfold ToParquetFn_init in Hfn.
  destruct (Z.of_nat N <=? 0)%Z; [done|]. inversion Hfn as [Hfn']. clear Hfn.
  rewrite Hfn'.
  rewrite !string_compare_app_l. unfold part_filename.
  rewrite string_compare_app_l.
  assert (Hlen : String.length (part_number fn i) = String.length (part_number fn j)).
  { subst fn. rewrite !part_number_length by lia. done. }
  apply string_compare_app_r; [done|].
  apply (digits_compare _ _ 0); [done|apply all_digits_part_number..|].
  unfold part_number. rewrite !zfill_numeral.
  rewrite !digits_value_app, !digits_value_zeros.
  unfold str_of_nat. by rewrite !digits_value_numeral by lia.
Qed.

Lemma part_filenames_sorted_witness :
  exists fn,
    ToParquetFn_init "out" false (Some 11%Z) = inr fn /\
    part_filename fn 2 = "part02.parquet" /\
    part_filename fn 10 = "part10.parquet" /\
    String.compare ("out" +:+ "/" +:+ part_filename fn 2)
                   ("out" +:+ "/" +:+ part_filename fn 10) = Lt.
Proof.
  destruct (ToParquetFn_init "out" false (Some 11%Z)) as [e|fn] eqn:E;
    [by vm_compute in E|].
  exists fn. split; [done|].
  pose proof (part_filenames_sorted "out" "/" 11 2 10 fn E ltac:(lia) ltac:(lia))
    as H.
  vm_compute in E. inversion E; subst fn. by split; [|split].
Defined.

(** ** [from_parquet]: subsets the reader reports, and the graph *)

Lemma subrg_is_all_none_tuples (ls : list (list Z)) :
  subrg_is_all_none (SubTuple <$> ls) = inr false.
Proof.
  unfold subrg_is_all_none.
  assert (existsb (fun s => match s with SubList _ => true | _ => false end)
                  (SubTuple <$> ls) = false) as ->.
  { induction ls as [|l ls IH]; [done|]. exact IH. }
  f_equal. by destruct ls as [|l ls].
Qed.

Lemma build_pairs_tuples (ls : list (list Z)) (paths : list string) :
  build_pairs (SubTuple <$> ls) paths =
    inr (concat (zip_with (fun l p => map (fun rg => (rg, p)) l) ls paths)).
Proof.
  revert paths. induction ls as [|l ls IH]; intros [|p paths]; simpl; try done.
  by rewrite IH.
Qed.

(** X21.  When the reader reports for every file a tuple of row-group
    indices, partitioning by row group makes one partition of every
    listed row group, file after file and within a file in the order of
    the tuple: the input of partition [k] is the [k]-th pair of row group
    and file.  The planner neither counts nor renumbers anything. *)
Theorem from_parquet_reported_subsets tok im sf cols filt split r ls g :
  granularity split r = RowGroupWise ->
  subrg r = Some (SubTuple <$> ls) ->
  let pairs := concat (zip_with (fun l p => map (fun rg => (rg, p)) l)
                                ls (actual_paths r)) in
  pairs <> [] ->
  exists a,
    from_parquet tok im sf cols filt split r g = (inr a, g ++ [dask a]) /\
    num_partitions a = length pairs /\
    layer_inputs a = pair_val <$> pairs.
Proof.
  intros Hg Hsub pairs Hne.
  rewrite (from_parquet_row_group_branch tok im sf cols filt split r _
             (SubTuple <$> ls) pairs g Hg Hsub).
  - rewrite from_map_single; [|done|by destruct pairs].
    take_result. unfold num_partitions, layer_inputs, new_array_object.
    cbn [dask]. by rewrite length_fmap.
  - unfold planned_subrg. by rewrite subrg_is_all_none_tuples.
  - apply build_pairs_tuples.
Qed.

Lemma from_parquet_reported_subsets_witness :
  exists a,
    from_parquet "fs" false false None VNone (Some true)
      {| parquet_columns := ["x"]; subform := "x: int64";
         actual_paths := ["data/a.parquet"; "data/b.parquet"];
         subrg := Some (SubTuple <$> [[1%Z]; [0%Z; 1%Z]]);
         row_counts := None;
         metadata := aggregate_metadata two_files |} []
      = (inr a, [] ++ [dask a]) /\
    layer_inputs a = [VTuple [VInt 1; VStr "data/a.parquet"];
                      VTuple [VInt 0; VStr "data/b.parquet"];
                      VTuple [VInt 1; VStr "data/b.parquet"]].
Proof.
  destruct (from_parquet_reported_subsets "fs" false false None VNone (Some true)
    {| parquet_columns := ["x"]; subform := "x: int64";
       actual_paths := ["data/a.parquet"; "data/b.parquet"];
       subrg := Some (SubTuple <$> [[1%Z]; [0%Z; 1%Z]]);
       row_counts := None;
       metadata := aggregate_metadata two_files |}
    [[1%Z]; [0%Z; 1%Z]] []) as (a & Ha & _ & Hin);
    [reflexivity | reflexivity | done |].
  exists a. split; [exact Ha|]. rewrite Hin. reflexivity.
Defined.

(** X22.  When the reader reports some file's subset as a list,
    partitioning by row group raises [TypeError] before anything is
    planned and builds no layer: the test [set(subrg) == {None}] hashes
    every subset and a list is unhashable. *)
Theorem from_parquet_list_subset_unhashable tok im sf cols filt split r sub g :
  granularity split r = RowGroupWise ->
  subrg r = Some sub ->
  Exists (fun s => exists l, s = SubList l) sub ->
  exists msg,
    from_parquet tok im sf cols filt split r g = (inl (TypeError msg), g).
Proof.
  intros Hg Hsub Hex. unfold from_parquet. rewrite Hg, Hsub.
  unfold planned_subrg, subrg_is_all_none.
  assert (existsb (fun s => match s with SubList _ => true | _ => false end) sub
          = true) as ->.
  { apply existsb_exists. apply Exists_exists in Hex as (s & Hs & l & ->).
    exists (SubList l). split; [by apply list_elem_of_In|done]. }
  rewrite bind_lift_inl. by eexists.
Qed.

Lemma from_parquet_list_subset_unhashable_witness :
  exists msg,
    from_parquet "fs" false false None VNone (Some true)
      {| parquet_columns := ["x"]; subform := "x: int64";
         actual_paths := ["data/a.parquet"];
         subrg := Some [SubList [0%Z]];
         row_counts := None;
         metadata := [{| file_path := ""; num_rows := 3 |}] |} []
      = (inl (TypeError msg), []).
Proof.
  apply (from_parquet_list_subset_unhashable "fs" false false None VNone (Some true)
    {| parquet_columns := ["x"]; subform := "x: int64";
       actual_paths := ["data/a.parquet"];
       subrg := Some [SubList [0%Z]];
       row_counts := None;
       metadata := [{| file_path := ""; num_rows := 3 |}] |} [SubList [0%Z]] []);
    [reflexivity | reflexivity | left; by eexists].
Defined.

(** X23.  [from_parquet] adds to the graph all or nothing.  When it
    raises, no layer has been constructed.  When it returns, exactly one
    layer has been constructed, that of the collection; the collection
    has at least one partition, is named [read-parquet] with the token of
    the filesystem and the arguments as the caller gave them, and its
    representative value is built from the form the reader reported. *)
Theorem from_parquet_one_layer tok im sf cols filt split r g :
  (forall e g', from_parquet tok im sf cols filt split r g = (inl e, g') ->
     g' = g) /\
  (forall a g', from_parquet tok im sf cols filt split r g = (inr a, g') ->
     g' = g ++ [dask a] /\
     1 <= num_partitions a /\
     name a = {| label := LabelStr "read-parquet";
                 token := TokenizeParquet tok im cols filt sf split |} /\
     _meta a = Some (TypetracerOfForm (subform r))).
Proof.
  assert (Hmap : forall func l divs,
    callable func = true ->
    (forall e g', from_map func [Sized l] None (Some "read-parquet")
                    (Some (TokenizeParquet tok im cols filt sf split)) divs
                    (Some (TypetracerOfForm (subform r))) ∅ g = (inl e, g') ->
       g' = g) /\
    (forall a g', from_map func [Sized l] None (Some "read-parquet")
                    (Some (TokenizeParquet tok im cols filt sf split)) divs
                    (Some (TypetracerOfForm (subform r))) ∅ g = (inr a, g') ->
       g' = g ++ [dask a] /\
       1 <= num_partitions a /\
       name a = {| label := LabelStr "read-parquet";
                   token := TokenizeParquet tok im cols filt sf split |} /\
       _meta a = Some (TypetracerOfForm (subform r)))).
  { intros func l divs Hc. split.
    - intros e g' H. by apply from_map_raises in H as [-> _].
    - intros a g' H. destruct l as [|x l].
      { destruct (from_map_single_empty func (Some "read-parquet")
          (Some (TokenizeParquet tok im cols filt sf split)) divs
          (Some (TypetracerOfForm (subform r))) g) as [msg Hmsg].
        rewrite Hmsg in H. done. }
      rewrite from_map_single in H by done.
      inversion H; subst. unfold num_partitions, new_array_object.
      cbn [dask name _meta length]. repeat split; try done. lia. }
  unfold from_parquet.
  destruct (granularity split r), (subrg r) as [sub|]; try (by apply Hmap).
  destruct (planned_subrg sub (actual_paths r) (metadata r)) as [e|sub'].
  { rewrite bind_lift_inl. split; intros ? ? H; by inversion H. }
  rewrite bind_lift_inr.
  destruct (build_pairs sub' (actual_paths r)) as [e|pairs].
  { rewrite bind_lift_inl. split; intros ? ? H; by inversion H. }
  rewrite bind_lift_inr. by apply Hmap.
Qed.

(** ** [from_map]: divisions are taken on trust *)

(** X24.  [from_map] does not compare the divisions it is given with its
    inputs.  Whenever it returns, the collection has one partition per
    item of the iterables (their common length [n]); given divisions
    become the collection's divisions as they are, of whatever length,
    and without divisions the collection gets [n + 1] unknown ones. *)
Theorem from_map_divisions_unchecked func its args label token divs meta kw g a g' :
  from_map func its args label token divs meta kw g = (inr a, g') ->
  exists n,
    n <> 0 /\
    Forall (fun it => exists l, iterable_items it = Some l /\ length l = n) its /\
    num_partitions a = n /\
    divisions a = default (replicate (n + 1) None) divs.
Proof.
  intros H.
  apply from_map_returns in H as (_ & iters & n & HF & Hne & Hn0 & Hall & _ & H).
  cbv zeta in H. destruct H as [_ ->]. exists n. split; [done|]. split.
  { clear Hne. induction HF as [|it l its iters Hit HF IH]; [constructor|].
    inversion Hall; subst. constructor; [by exists l|by apply IH]. }
  assert (Hlen : length (if negb (truthy (default (VBool false)
                                            (kw !! "produces_tasks"))
                                  || Nat.eqb (length iters) 1)
                         then zip_star iters else default [] (head iters)) = n).
  { destruct (negb _); [by apply zip_star_length|].
    destruct iters as [|it rest]; [done|]. by inversion Hall. }
  unfold num_partitions, new_array_object. cbn [dask divisions].
  split; [done|]. destruct divs as [d|]; [done|]. simpl. by rewrite Hlen.
Qed.

Lemma from_map_divisions_unchecked_witness :
  exists a g',
    from_map (UserFn "f") [Sized [VInt 1; VInt 2; VInt 3]] None None None
             (Some [Some 0%Z]) None ∅ [] = (inr a, g') /\
    num_partitions a = 3 /\ divisions a = [Some 0%Z].
Proof.
  destruct (from_map (UserFn "f") [Sized [VInt 1; VInt 2; VInt 3]] None None None
              (Some [Some 0%Z]) None ∅ []) as [[e|a] g'] eqn:E;
    [by vm_compute in E|].
  exists a, g'. split; [done|].
  destruct (from_map_divisions_unchecked _ _ _ _ _ _ _ _ _ _ _ E)
    as (n & _ & Hall & Hn & Hd).
  apply Forall_cons in Hall as [(l & Hl & Hlen) _].
  simpl in Hl. injection Hl as <-. simpl in Hlen. subst n. by split.
Defined.
